(** * RoutedRawChannel and MessagePipe: a shallow embedding

    The routing layer of the mojo EDK multiplexes many message pipes over
    one RawChannel.  This file embeds [RoutedRawChannel]
    (mojo/edk/system/routed_raw_channel.cc) as pure functions on an
    explicit state that return the new state together with the trace of
    calls made on collaborators (dispatchers, the raw channel, the message
    loop), and states the properties of the routing layer and of the local
    message pipe as theorems. *)

From Stdlib Require Import NArith Lia Strings.Byte.
From stdpp Require Import base option list gmap sets strings.

Local Open Scope N_scope.

(** ** Outcomes

    [CHECK], [CHECK_NE] and [CHECK_EQ] abort the process when they fail and
    a call through a null pointer has no defined behaviour; both are a
    [Crash].  [OutOfFuel] is reserved for loops run with a bound. *)
Inductive Outcome (A : Type) : Type :=
| Done (a : A)
| Crash (why : string)
| OutOfFuel.
Arguments Done {A} a.
Arguments Crash {A} why.
Arguments OutOfFuel {A}.

Module RoutedRawChannel.

(** A [MessagePipeDispatcher*] is compared by address only. *)
Abbreviation MessagePipeDispatcher := N (only parsing).

(** A [ScopedPlatformHandleVectorPtr]: the platform handles that travel
    with a message. *)
Abbreviation PlatformHandles := (list N) (only parsing).

(** [const uint64_t kInternalRoutingId = 0;] *)
Definition kInternalRoutingId : N := 0.

(** [enum InternalMessages { ROUTE_CLOSED = 0 };] *)
Definition ROUTE_CLOSED : N := 0.

(** [RawChannel::Delegate::Error].  The routing layer names one
    enumerator; raw_channel.h is not among the sources, so the others are
    kept by their value. *)
Inductive Error : Type :=
| ERROR_READ_SHUTDOWN
| ERROR_OTHER (value : N).

(** [MessageInTransit::Type].  The routing layer builds [MESSAGE] frames
    and does not look at the type of the frames it receives;
    message_in_transit.h is not among the sources, so the other
    enumerators are kept by their value. *)
Inductive MessageType : Type :=
| MESSAGE
| TYPE_OTHER (value : N).

(** What the routing layer reads from a [MessageInTransit] or from a
    [MessageInTransit::View]: its type, the route id of its header and its
    payload bytes ([num_bytes()] is the payload length). *)
Record View : Type := mkView {
  type : MessageType;
  route_id : N;
  bytes : list byte
}.

Definition num_bytes (v : View) : N := N.of_nat (length (bytes v)).

(** [struct PendingMessage { std::vector<char> message;
    ScopedPlatformHandleVectorPtr handles; }].  [message] holds a copy of
    the whole frame ([main_buffer()], [total_size()]), from which AddRoute
    rebuilds the same view. *)
Record PendingMessage : Type := mkPending {
  message : View;
  handles : PlatformHandles
}.

(** The members of a [RoutedRawChannel].  [channel_] is [true] while the
    [RawChannel*] is non-null. *)
Record State : Type := mkState {
  channel_ : bool;
  routes_ : gmap N MessagePipeDispatcher;
  pending_messages_ : list PendingMessage;
  close_routes_ : gset N
}.

(** The calls a [RoutedRawChannel] makes on its collaborators, in program
    order.  [NotReached] marks a [NOTREACHED()] statement: an assertion of
    debug builds that compiles to nothing in production builds, where
    control continues with the statement that follows it. *)
Inductive Event : Type :=
| PipeOnReadMessage (pipe : MessagePipeDispatcher) (view : View)
                    (platform_handles : PlatformHandles)
| PipeOnError (pipe : MessagePipeDispatcher) (error : Error)
| ChannelWriteMessage (m : View)
| ChannelShutdown
| DeleteSoon
| DeleteThis
| NotReached (msg : string).

Definition is_delete_this (e : Event) : bool :=
  match e with
  | DeleteThis => true
  | _ => false
  end.

(** State right after the constructor: the raw channel exists, nothing is
    bound, buffered or closed. *)
Definition initial : State :=
  mkState true ∅ [] ∅.

(** *** Byte layout of the internal message *)

(** One [char] holding the low eight bits of [v]. *)
Definition byte_of_N (v : N) : byte :=
  match Byte.of_N (v mod 256) with
  | Some b => b
  | None => x00
  end.

(** [memcpy(dst, &v, n)] of an unsigned integer on a little-endian host:
    the [n] low bytes of [v], least significant first. *)
Fixpoint store_le (n : nat) (v : N) : list byte :=
  match n with
  | O => []
  | S n' => byte_of_N v :: store_le n' (v / 256)
  end.

(** [*reinterpret_cast<const uintN_t*>(p)] on a little-endian host, reading
    [n] bytes (absent bytes read as zero). *)
Fixpoint load_le (n : nat) (bs : list byte) : N :=
  match n with
  | O => 0
  | S n' =>
      match bs with
      | [] => 0
      | b :: bs' => Byte.to_N b + 256 * load_le n' bs'
      end
  end.

(** [sizeof(char) + sizeof(uint64_t)] *)
Definition internal_message_size : N := 1 + 8.

(** The frame RemoveRoute builds:
    [message_data[0] = ROUTE_CLOSED; memcpy(&message_data[1], &pipe_id, 8);]
    then [set_route_id(kInternalRoutingId)]. *)
Definition route_closed_message (pipe_id : N) : View :=
  mkView MESSAGE kInternalRoutingId (byte_of_N ROUTE_CLOSED :: store_le 8 pipe_id).

(** *** AddRoute *)

(** The drain loop of AddRoute,
    [for (size_t i = 0; i < pending_messages_.size();)], with the index,
    the vector and the calls made so far as loop state.  Each iteration
    either erases element [i] or increments [i]. *)
Fixpoint drain (fuel : nat) (pipe_id : N) (pipe : MessagePipeDispatcher)
    (i : nat) (pending : list PendingMessage) (calls : list Event)
    : Outcome (list PendingMessage * list Event) :=
  match pending !! i with
  | None => Done (pending, calls)
  | Some pm =>
      match fuel with
      | O => OutOfFuel
      | S fuel' =>
          if route_id (message pm) =? pipe_id then
            drain fuel' pipe_id pipe i (delete i pending)
                  (calls ++ [PipeOnReadMessage pipe (message pm) (handles pm)])
          else
            drain fuel' pipe_id pipe (S i) pending calls
      end
  end.

Definition AddRoute (pipe_id : N) (pipe : MessagePipeDispatcher) (s : State)
    : Outcome (State * list Event) :=
  if pipe_id =? kInternalRoutingId then Crash "CHECK_NE(pipe_id, kInternalRoutingId)"
  else
    match routes_ s !! pipe_id with
    | Some _ => Crash "CHECK(routes_.find(pipe_id) == routes_.end())"
    | None =>
        let routes := <[pipe_id := pipe]> (routes_ s) in
        match drain (length (pending_messages_ s)) pipe_id pipe 0
                    (pending_messages_ s) [] with
        | Done (pending, calls) =>
            let closed :=
              if decide (pipe_id ∈ close_routes_ s)
              then [PipeOnError pipe ERROR_READ_SHUTDOWN] else [] in
            Done (mkState (channel_ s) routes pending (close_routes_ s),
                  calls ++ closed)
        | Crash why => Crash why
        | OutOfFuel => OutOfFuel
        end
    end.

(** *** RemoveRoute *)

Definition RemoveRoute (pipe_id : N) (pipe : MessagePipeDispatcher) (s : State)
    : Outcome (State * list Event) :=
  match routes_ s !! pipe_id with
  | None => Crash "CHECK(routes_.find(pipe_id) != routes_.end())"
  | Some bound =>
      if negb (bound =? pipe) then Crash "CHECK_EQ(routes_[pipe_id], pipe)"
      else
        let routes := delete pipe_id (routes_ s) in
        let '(closed, sent) :=
          if decide (pipe_id ∈ close_routes_ s) then
            (close_routes_ s ∖ {[pipe_id]}, [])
          else if channel_ s then
            (close_routes_ s, [ChannelWriteMessage (route_closed_message pipe_id)])
          else
            (close_routes_ s, []) in
        let deleted :=
          if negb (channel_ s) && bool_decide (routes = ∅)
          then [DeleteSoon] else [] in
        Done (mkState (channel_ s) routes (pending_messages_ s) closed,
              sent ++ deleted)
  end.

(** *** OnReadMessage (RawChannel::Delegate) *)

Definition OnReadMessage (message_view : View) (platform_handles : PlatformHandles)
    (s : State) : Outcome (State * list Event) :=
  let route := route_id message_view in
  if route =? kInternalRoutingId then
    if negb (num_bytes message_view =? internal_message_size) then
      Done (s, [NotReached "Invalid internal message in RoutedRawChannel."])
    else if negb (Byte.to_N (nth 0 (bytes message_view) x00) =? ROUTE_CLOSED) then
      Done (s, [NotReached "Unknown internal message in RoutedRawChannel."])
    else
      let closed_route := load_le 8 (drop 1 (bytes message_view)) in
      if decide (closed_route ∈ close_routes_ s) then
        Done (s, [NotReached "Should only receive one ROUTE_CLOSED per route."])
      else
        let s' := mkState (channel_ s) (routes_ s) (pending_messages_ s)
                          ({[closed_route]} ∪ close_routes_ s) in
        match routes_ s !! closed_route with
        | None => Done (s', [])
        | Some pipe => Done (s', [PipeOnError pipe ERROR_READ_SHUTDOWN])
        end
  else
    match routes_ s !! route with
    | Some pipe =>
        Done (s, [PipeOnReadMessage pipe message_view platform_handles])
    | None =>
        Done (mkState (channel_ s) (routes_ s)
                      (pending_messages_ s ++ [mkPending message_view platform_handles])
                      (close_routes_ s),
              [])
    end.

(** *** OnError (RawChannel::Delegate) *)

(** [for (auto it = routes_.begin(); it != routes_.end(); ++it)
      it->second->OnError(error);].  The order in which a hash map is
    walked is not specified; the model walks it in the order of
    [map_to_list]. *)
Definition notify_routes (error : Error) (routes : gmap N MessagePipeDispatcher)
    : list Event :=
  (λ kv, PipeOnError kv.2 error) <$> map_to_list routes.

Definition OnError (error : Error) (s : State) : Outcome (State * list Event) :=
  if negb (channel_ s) then Crash "channel_->Shutdown() on a null channel_"
  else
    let s' := mkState false (routes_ s) (pending_messages_ s) (close_routes_ s) in
    if bool_decide (routes_ s = ∅) then
      Done (s', [ChannelShutdown; DeleteThis])
    else
      Done (s', ChannelShutdown :: notify_routes error (routes_ s)).

(** *** Sequences of calls *)

Inductive Call : Type :=
| CallAddRoute (pipe_id : N) (pipe : MessagePipeDispatcher)
| CallRemoveRoute (pipe_id : N) (pipe : MessagePipeDispatcher)
| CallOnReadMessage (message_view : View) (platform_handles : PlatformHandles)
| CallOnError (error : Error).

Definition call (c : Call) (s : State) : Outcome (State * list Event) :=
  match c with
  | CallAddRoute pipe_id pipe => AddRoute pipe_id pipe s
  | CallRemoveRoute pipe_id pipe => RemoveRoute pipe_id pipe s
  | CallOnReadMessage v h => OnReadMessage v h s
  | CallOnError e => OnError e s
  end.

(** Runs the calls in order and concatenates their traces.  Nothing may be
    called on the object once [delete this] has run. *)
Fixpoint run (cs : list Call) (s : State) : Outcome (State * list Event) :=
  match cs with
  | [] => Done (s, [])
  | c :: cs' =>
      match call c s with
      | Done (s1, t1) =>
          if existsb is_delete_this t1 then
            match cs' with
            | [] => Done (s1, t1)
            | _ :: _ => Crash "call on a deleted RoutedRawChannel"
            end
          else
            match run cs' s1 with
            | Done (s2, t2) => Done (s2, t1 ++ t2)
            | Crash why => Crash why
            | OutOfFuel => OutOfFuel
            end
      | Crash why => Crash why
      | OutOfFuel => OutOfFuel
      end
  end.

End RoutedRawChannel.

(** ** Vocabulary of the statements *)

Module Import RoutedRawChannelProps.
Import RoutedRawChannel.

(** The pending message belongs to route [p]. *)
Definition for_route (p : N) (pm : PendingMessage) : Prop :=
  route_id (message pm) = p.

#[global] Instance for_route_dec p pm : Decision (for_route p pm).
Proof. unfold for_route. apply _. Defined.

(** The call by which a buffered message reaches dispatcher [d]. *)
Definition deliver (d : N) (pm : PendingMessage) : Event :=
  PipeOnReadMessage d (message pm) (handles pm).

(** An inbound frame as the raw channel hands it over. *)
Definition Frame : Type := View * list N.

Definition as_pending (f : Frame) : PendingMessage := mkPending f.1 f.2.

Definition received (frames : list Frame) : list Call :=
  (λ f : Frame, CallOnReadMessage f.1 f.2) <$> frames.

(** [v] is a well-formed ROUTE_CLOSED message naming pipe [p]. *)
Definition is_route_closed (p : N) (v : View) : Prop :=
  route_id v = kInternalRoutingId
  ∧ num_bytes v = internal_message_size
  ∧ Byte.to_N (nth 0 (bytes v) x00) = ROUTE_CLOSED
  ∧ load_le 8 (drop 1 (bytes v)) = p.

#[global] Instance is_route_closed_dec p v : Decision (is_route_closed p v).
Proof. unfold is_route_closed. apply _. Defined.

(** [e] hands a message of route [p] to some dispatcher. *)
Definition reads_on_route (p : N) (e : Event) : Prop :=
  match e with
  | PipeOnReadMessage _ v _ => route_id v = p
  | _ => False
  end.

(** [e] is a call on some dispatcher. *)
Definition is_pipe_call (e : Event) : Prop :=
  match e with
  | PipeOnReadMessage _ _ _ | PipeOnError _ _ => True
  | _ => False
  end.

(** The frames that the trace [t] hands to [channel_->WriteMessage], in
    order. *)
Definition written (t : list Event) : list View :=
  omap (λ e, match e with ChannelWriteMessage m => Some m | _ => None end) t.

(** [e] destroys the object, now or from the message loop. *)
Definition is_destruction (e : Event) : Prop :=
  e = DeleteSoon ∨ e = DeleteThis.

(** [e] is a call on the raw channel or on the message loop. *)
Definition is_transport_call (e : Event) : Prop :=
  match e with
  | ChannelWriteMessage _ | ChannelShutdown | DeleteSoon | DeleteThis => True
  | _ => False
  end.

(** The errors that the trace [t] reports to dispatcher [d], in order. *)
Definition errors_to (d : N) (t : list Event) : list Error :=
  omap (λ ev, match ev with
              | PipeOnError d' e => if decide (d' = d) then Some e else None
              | _ => None
              end) t.

(** The route bindings of [routes] that name dispatcher [d]. *)
Definition bindings_of (d : N) (routes : gmap N N) : list (N * N) :=
  filter (λ kv, kv.2 = d) (map_to_list routes).

(** An inbound frame on the internal route that OnReadMessage refuses:
    wrong length, unknown first byte, or a ROUTE_CLOSED for a pipe that is
    already in [close_routes_]. *)
Definition malformed_control (s : State) (v : View) : Prop :=
  route_id v = kInternalRoutingId
  ∧ (num_bytes v ≠ internal_message_size
     ∨ Byte.to_N (nth 0 (bytes v) x00) ≠ ROUTE_CLOSED
     ∨ load_le 8 (drop 1 (bytes v)) ∈ close_routes_ s).

(** The calls that unbind the given bindings, in the given order. *)
Definition removals (ps : list (N * N)) : list Call :=
  (λ kv, CallRemoveRoute kv.1 kv.2) <$> ps.

End RoutedRawChannelProps.

(** ** Two RoutedRawChannels joined by a transport *)

Module Link.
Import RoutedRawChannel.

Inductive Side : Type :=
| SideA
| SideB.

(** Modelled from the spec: the Transport (RawChannel, whose source is not
    among the sources), "reliable ordered frame delivery between two
    endpoints": what one side writes waits in a FIFO until the other
    side's OnReadMessage takes it.  Each side keeps the trace of all the
    calls its RoutedRawChannel has made. *)
Record System : Type := mkSystem {
  a : State;
  b : State;
  to_a : list View;
  to_b : list View;
  trace_a : list Event;
  trace_b : list Event
}.

Definition start : System :=
  mkSystem initial initial [] [] [] [].

Inductive Action : Type :=
| DoAddRoute (side : Side) (pipe_id : N) (pipe : N)
| DoRemoveRoute (side : Side) (pipe_id : N) (pipe : N)
| Arrive (side : Side).

(** Installs the result of a call made on [side]: the state and the trace
    of that side, and what it wrote on the way to the other side. *)
Definition commit (side : Side) (y : System) (r : Outcome (State * list Event))
    : Outcome System :=
  match r with
  | Done (s, t) =>
      match side with
      | SideA => Done (mkSystem s (b y) (to_a y) (to_b y ++ written t)
                                (trace_a y ++ t) (trace_b y))
      | SideB => Done (mkSystem (a y) s (to_a y ++ written t) (to_b y)
                                (trace_a y) (trace_b y ++ t))
      end
  | Crash why => Crash why
  | OutOfFuel => OutOfFuel
  end.

Definition side_state (side : Side) (y : System) : State :=
  match side with SideA => a y | SideB => b y end.

Definition step (act : Action) (y : System) : Outcome System :=
  match act with
  | DoAddRoute side pipe_id pipe =>
      commit side y (AddRoute pipe_id pipe (side_state side y))
  | DoRemoveRoute side pipe_id pipe =>
      commit side y (RemoveRoute pipe_id pipe (side_state side y))
  | Arrive SideA =>
      match to_a y with
      | [] => Done y
      | v :: rest =>
          commit SideA (mkSystem (a y) (b y) rest (to_b y) (trace_a y) (trace_b y))
                 (OnReadMessage v [] (a y))
      end
  | Arrive SideB =>
      match to_b y with
      | [] => Done y
      | v :: rest =>
          commit SideB (mkSystem (a y) (b y) (to_a y) rest (trace_a y) (trace_b y))
                 (OnReadMessage v [] (b y))
      end
  end.

Fixpoint steps (acts : list Action) (y : System) : Outcome System :=
  match acts with
  | [] => Done y
  | act :: acts' =>
      match step act y with
      | Done y' => steps acts' y'
      | Crash why => Crash why
      | OutOfFuel => OutOfFuel
      end
  end.

End Link.

(** ** The local message pipe *)

Module MessagePipe.

(** Modelled from the spec: the MessagePipe of mojo/system/message_pipe.cc,
    which is not among the sources (its unit test is).  The result codes
    are the "error kinds" of the local pipe API. *)
Inductive MojoResult : Type :=
| MOJO_RESULT_OK
| MOJO_RESULT_CANCELLED
| MOJO_RESULT_INVALID_ARGUMENT
| MOJO_RESULT_DEADLINE_EXCEEDED
| MOJO_RESULT_NOT_FOUND
| MOJO_RESULT_ALREADY_EXISTS
| MOJO_RESULT_RESOURCE_EXHAUSTED
| MOJO_RESULT_FAILED_PRECONDITION.

(** Modelled from the spec: a queued message, "{ bytes, handles }". *)
Record Msg : Type := mkMsg {
  msg_bytes : list byte;
  msg_handles : list N
}.

(** Modelled from the spec: "flags: {READABLE|WRITABLE}", which of the two
    wait flags are set. *)
Record WaitFlags : Type := mkFlags {
  READABLE : bool;
  WRITABLE : bool
}.

(** Modelled from the spec: "Waiter: { flags, context: u64 }", together
    with the address of the waiter object that AddWaiter is given. *)
Record Waiter : Type := mkWaiter {
  waiter : N;
  flags : WaitFlags;
  context : N
}.

(** Modelled from the spec: "State per port: incoming: FIFO<Msg>,
    peer_closed: bool, self_closed: bool, waiters: set<Waiter>".  The
    waiters are kept in the order in which they were added. *)
Record Port : Type := mkPort {
  incoming : list Msg;
  peer_closed : bool;
  self_closed : bool;
  waiters : list Waiter
}.

(** Modelled from the spec: "two Ports (indices 0 and 1)". *)
Record Pipe : Type := mkPipe {
  port0 : Port;
  port1 : Port
}.

Inductive PortIndex : Type :=
| Port0
| Port1.

#[global] Instance PortIndex_eq_dec : EqDecision PortIndex.
Proof. solve_decision. Defined.

Definition peer (i : PortIndex) : PortIndex :=
  match i with Port0 => Port1 | Port1 => Port0 end.

Definition get (i : PortIndex) (mp : Pipe) : Port :=
  match i with Port0 => port0 mp | Port1 => port1 mp end.

Definition set (i : PortIndex) (p : Port) (mp : Pipe) : Pipe :=
  match i with
  | Port0 => mkPipe p (port1 mp)
  | Port1 => mkPipe (port0 mp) p
  end.

Definition created : Pipe :=
  mkPipe (mkPort [] false false []) (mkPort [] false false []).

(** Modelled from the spec: a waiter [w] woken with result [r]. *)
Inductive Wake : Type :=
| Woken (w : Waiter) (r : MojoResult).

(** Modelled from the spec: a requested flag holds now, READABLE "while
    queue nonempty", WRITABLE "while peer open". *)
Definition satisfied (f : WaitFlags) (p : Port) : bool :=
  (READABLE f && negb (bool_decide (incoming p = [])))
  || (WRITABLE f && negb (peer_closed p)).

(** Modelled from the spec: a requested flag may still come to hold,
    "READABLE stays satisfiable while queue nonempty, then becomes
    unsatisfiable; WRITABLE becomes unsatisfiable immediately" once the
    peer has closed. *)
Definition satisfiable (f : WaitFlags) (p : Port) : bool :=
  (READABLE f && (negb (bool_decide (incoming p = [])) || negb (peer_closed p)))
  || (WRITABLE f && negb (peer_closed p)).

(** Modelled from the spec: "when a waiter is satisfied it is woken with
    result = 0; on unsatisfiability, FAILED_PRECONDITION". *)
Definition wake (p : Port) : list Wake :=
  omap (λ w,
          if satisfied (flags w) p then Some (Woken w MOJO_RESULT_OK)
          else if satisfiable (flags w) p then None
          else Some (Woken w MOJO_RESULT_FAILED_PRECONDITION))
       (waiters p).

(** Modelled from the spec: the limits the implementation places on a
    message, whose values are not given: the "implementation max" of the
    payload size, and the sizes from which a payload or a handle count is
    "implausibly large". *)
Record Limits : Type := mkLimits {
  max_num_bytes : N;
  implausible_num_bytes : N;
  implausible_num_handles : N
}.

(** A null pointer is [None]; a non-null one gives the memory it points
    to. *)
Definition is_null {A : Type} (p : option A) : bool :=
  match p with Some _ => false | None => true end.

Definition memory {A : Type} (p : option (list A)) : list A :=
  match p with Some l => l | None => [] end.

(** Modelled from the spec: "enqueues the message on the peer port's
    incoming and wakes any waiter whose flag includes READABLE". *)
Definition enqueue (i : PortIndex) (m : Msg) (mp : Pipe) : Pipe * list Wake :=
  let q := get i mp in
  let q' := mkPort (incoming q ++ [m]) (peer_closed q) (self_closed q) (waiters q) in
  (set i q' mp, wake q').

(** Modelled from the spec: MessagePipe::WriteMessage (mojo/system/
    message_pipe.cc is not among the sources; only its unit test is).  "fails FAILED_PRECONDITION if the peer port is closed; fails
    INVALID_ARGUMENT for null bytes with nonzero length, null handles with
    nonzero count, or payload size exceeding implementation max; fails
    RESOURCE_EXHAUSTED for implausibly large sizes.  On success, enqueues
    the message on the peer port's incoming and wakes any waiter whose
    flag includes READABLE."  The failures are tried in the order in which
    they are listed, except that an implausible size is recognised before
    the maximum is applied.  Of the memory behind a non-null pointer the
    first [num_bytes] bytes (resp. [num_handles] handles) are sent. *)
Definition WriteMessage (lim : Limits) (port : PortIndex)
    (bytes : option (list byte)) (num_bytes : N)
    (handles : option (list N)) (num_handles : N)
    (mp : Pipe) : MojoResult * (Pipe * list Wake) :=
  if peer_closed (get port mp) then
    (MOJO_RESULT_FAILED_PRECONDITION, (mp, []))
  else if is_null bytes && negb (num_bytes =? 0) then
    (MOJO_RESULT_INVALID_ARGUMENT, (mp, []))
  else if is_null handles && negb (num_handles =? 0) then
    (MOJO_RESULT_INVALID_ARGUMENT, (mp, []))
  else if (implausible_num_bytes lim <=? num_bytes)
          || (implausible_num_handles lim <=? num_handles) then
    (MOJO_RESULT_RESOURCE_EXHAUSTED, (mp, []))
  else if max_num_bytes lim <? num_bytes then
    (MOJO_RESULT_INVALID_ARGUMENT, (mp, []))
  else
    (MOJO_RESULT_OK,
     enqueue (peer port)
             (mkMsg (take (N.to_nat num_bytes) (memory bytes))
                    (take (N.to_nat num_handles) (memory handles)))
             mp).

(** Modelled from the spec: what a ReadMessage call leaves behind, its
    result, the caller's buffer and handle array, the two in-out sizes,
    and the pipe. *)
Record Read : Type := mkRead {
  result : MojoResult;
  buffer_out : list byte;
  buffer_size_out : N;
  handles_out : list N;
  handle_count_out : N;
  pipe_out : Pipe
}.

Definition msg_size (m : Msg) : N := N.of_nat (length (msg_bytes m)).

Definition msg_handle_count (m : Msg) : N := N.of_nat (length (msg_handles m)).

(** Modelled from the spec: MessagePipe::ReadMessage (message_pipe.cc is
    not among the sources).  "if queue empty and peer not closed,
    returns NOT_FOUND; if peer closed and queue empty, returns
    FAILED_PRECONDITION.  If buffer too small: with flag MAY_DISCARD
    clears, discards the head and returns RESOURCE_EXHAUSTED with the
    discarded size; without, returns RESOURCE_EXHAUSTED and leaves the head
    in place.  Success returns OK, fills buffer, reports actual sizes.
    buffer_size is always written with the next message's size when the
    result is RESOURCE_EXHAUSTED or OK; it is not modified on other
    failures."  The buffer is too small when the payload does not fit in
    [buffer_size] bytes or the handles do not fit in [handle_count] slots;
    filling overwrites the front of the caller's memory and leaves the
    rest as it was. *)
Definition ReadMessage (port : PortIndex)
    (buffer : list byte) (buffer_size : N)
    (handle_array : list N) (handle_count : N)
    (may_discard : bool) (mp : Pipe) : Read :=
  let p := get port mp in
  match incoming p with
  | [] =>
      mkRead (if peer_closed p then MOJO_RESULT_FAILED_PRECONDITION
              else MOJO_RESULT_NOT_FOUND)
             buffer buffer_size handle_array handle_count mp
  | m :: rest =>
      let popped := set port (mkPort rest (peer_closed p) (self_closed p) (waiters p)) mp in
      if (buffer_size <? msg_size m) || (handle_count <? msg_handle_count m) then
        mkRead MOJO_RESULT_RESOURCE_EXHAUSTED
               buffer (msg_size m) handle_array (msg_handle_count m)
               (if may_discard then popped else mp)
      else
        mkRead MOJO_RESULT_OK
               (msg_bytes m ++ drop (length (msg_bytes m)) buffer) (msg_size m)
               (msg_handles m ++ drop (length (msg_handles m)) handle_array)
               (msg_handle_count m)
               popped
  end.

(** Modelled from the spec: MessagePipe::Close (message_pipe.cc is not
    among the sources).  "sets self_closed, drains waiters with
    CANCELLED if any were added via AddWaiter, marks the peer port's
    peer_closed=true and wakes its waiters". *)
Definition Close (port : PortIndex) (mp : Pipe) : Pipe * list Wake :=
  let p := get port mp in
  let q := get (peer port) mp in
  let p' := mkPort (incoming p) (peer_closed p) true [] in
  let q' := mkPort (incoming q) true (self_closed q) (waiters q) in
  (set (peer port) q' (set port p' mp),
   ((λ w, Woken w MOJO_RESULT_CANCELLED) <$> waiters p) ++ wake q').

(** Modelled from the spec: MessagePipe::AddWaiter (message_pipe.cc is not
    among the sources).  "returns ALREADY_EXISTS if the flag is
    already satisfied (e.g., writable while peer open, or readable while
    queue nonempty), FAILED_PRECONDITION if the flag can never be satisfied
    (peer closed + no queued message for READABLE, or peer closed for
    WRITABLE), else OK and records the waiter."  With several flags
    requested, one satisfied flag is enough for ALREADY_EXISTS and none
    may be satisfiable for FAILED_PRECONDITION. *)
Definition AddWaiter (port : PortIndex) (w : N) (f : WaitFlags) (ctx : N)
    (mp : Pipe) : MojoResult * Pipe :=
  let p := get port mp in
  if satisfied f p then (MOJO_RESULT_ALREADY_EXISTS, mp)
  else if negb (satisfiable f p) then (MOJO_RESULT_FAILED_PRECONDITION, mp)
  else
    (MOJO_RESULT_OK,
     set port (mkPort (incoming p) (peer_closed p) (self_closed p)
                      (waiters p ++ [mkWaiter w f ctx])) mp).

End MessagePipe.

(** ** Vocabulary for whole sequences of calls *)

Module Import RoutedRawChannelTraces.
Import RoutedRawChannel.

(** The messages of route [p] that the trace [t] hands to dispatchers, in
    order, each with the dispatcher that got it. *)
Definition reads_of (p : N) (t : list Event) : list (N * PendingMessage) :=
  omap (λ e, match e with
             | PipeOnReadMessage d v h =>
                 if decide (route_id v = p) then Some (d, mkPending v h) else None
             | _ => None
             end) t.

(** The frames of route [p] that the calls [cs] bring in, in order. *)
Definition arrivals_of (p : N) (cs : list Call) : list PendingMessage :=
  omap (λ c, match c with
             | CallOnReadMessage v h =>
                 if decide (route_id v = p) then Some (mkPending v h) else None
             | _ => None
             end) cs.

(** [c] is an AddRoute for pipe [p]. *)
Definition binds (p : N) (c : Call) : Prop :=
  match c with
  | CallAddRoute q _ => q = p
  | _ => False
  end.

(** [c] is an OnError. *)
Definition is_error_call (c : Call) : Prop :=
  match c with
  | CallOnError _ => True
  | _ => False
  end.

(** The internal route is not bound, and every buffered message is for a
    user route that is not bound. *)
Definition well_buffered (s : State) : Prop :=
  routes_ s !! kInternalRoutingId = None
  ∧ Forall (λ pm, route_id (message pm) ≠ kInternalRoutingId
                  ∧ routes_ s !! route_id (message pm) = None)
           (pending_messages_ s).

(** [e], if it is a call on a dispatcher, is a call on a dispatcher that
    [s] has bound; if it hands over a message, the message is for a user
    route and the dispatcher is the one bound to that route. *)
Definition on_bound (s : State) (e : Event) : Prop :=
  match e with
  | PipeOnReadMessage d v _ =>
      route_id v ≠ kInternalRoutingId ∧ routes_ s !! route_id v = Some d
  | PipeOnError d _ => ∃ p, routes_ s !! p = Some d
  | _ => True
  end.

(** [e] is a call on dispatcher [d]. *)
Definition calls (d : N) (e : Event) : Prop :=
  match e with
  | PipeOnReadMessage d' _ _ | PipeOnError d' _ => d' = d
  | _ => False
  end.

(** [c] is an AddRoute that names dispatcher [d]. *)
Definition names (d : N) (c : Call) : Prop :=
  match c with
  | CallAddRoute _ d' => d' = d
  | _ => False
  end.

(** Dispatcher [d] is bound to no route of [s]. *)
Definition unused (d : N) (s : State) : Prop :=
  ∀ q, routes_ s !! q ≠ Some d.

End RoutedRawChannelTraces.

(** * Properties of RoutedRawChannel *)

Section RoutedRawChannelFacts.
Import RoutedRawChannel.

(** ** The drain loop *)

(** With at least as much fuel as there are elements left to examine, the
    loop ends; it keeps the examined prefix and the messages of other
    routes, and delivers the messages of [p] in the order of the vector. *)
Lemma drain_filter fuel p d : ∀ i pending calls,
  (length pending - i ≤ fuel)%nat →
  drain fuel p d i pending calls =
    Done (take i pending ++ filter (λ pm, ¬ for_route p pm) (drop i pending),
          calls ++ (deliver d <$> filter (for_route p) (drop i pending))).
Proof.
  induction fuel as [|fuel IH]; intros i pending calls Hfuel.
  - destruct (pending !! i) as [pm|] eqn:Hi.
    + apply lookup_lt_Some in Hi. lia.
    + simpl. rewrite Hi. apply lookup_ge_None in Hi.
      rewrite drop_ge, take_ge by lia. simpl. by rewrite !app_nil_r.
  - simpl. destruct (pending !! i) as [pm|] eqn:Hi.
    + pose proof (lookup_lt_Some _ _ _ Hi) as Hlt.
      rewrite (drop_S _ _ _ Hi).
      destruct (N.eqb_spec (route_id (message pm)) p) as [Heq|Hne].
      * rewrite IH by (rewrite length_delete by eauto; lia).
        rewrite delete_take_drop.
        rewrite take_app_length', drop_app_length' by (rewrite length_take; lia).
        rewrite filter_cons_False by (intros H; by apply H).
        rewrite filter_cons_True by done.
        simpl. by rewrite <- app_assoc.
      * rewrite IH by lia.
        rewrite (take_S_r _ _ _ Hi).
        rewrite filter_cons_True by done.
        rewrite (filter_cons_False (for_route p)) by done.
        by rewrite <- app_assoc.
    + apply lookup_ge_None in Hi.
      rewrite drop_ge, take_ge by lia. simpl. by rewrite !app_nil_r.
Qed.

Lemma drain_all p d pending :
  drain (length pending) p d 0 pending [] =
    Done (filter (λ pm, ¬ for_route p pm) pending,
          deliver d <$> filter (for_route p) pending).
Proof. rewrite drain_filter by lia. by rewrite take_0, drop_0. Qed.

(** ** AddRoute, once its CHECKs hold *)

Lemma AddRoute_Done p d s :
  p ≠ kInternalRoutingId →
  routes_ s !! p = None →
  AddRoute p d s =
    Done (mkState (channel_ s) (<[p := d]> (routes_ s))
                  (filter (λ pm, ¬ for_route p pm) (pending_messages_ s))
                  (close_routes_ s),
          (deliver d <$> filter (for_route p) (pending_messages_ s))
          ++ (if decide (p ∈ close_routes_ s)
              then [PipeOnError d ERROR_READ_SHUTDOWN] else [])).
Proof.
  intros Hp Hfree. unfold AddRoute.
  destruct (N.eqb_spec p kInternalRoutingId) as [|_]; [done|].
  by rewrite Hfree, drain_all.
Qed.

Lemma AddRoute_inv p d s s' t :
  AddRoute p d s = Done (s', t) →
  p ≠ kInternalRoutingId ∧ routes_ s !! p = None.
Proof.
  unfold AddRoute.
  destruct (N.eqb_spec p kInternalRoutingId) as [|Hp]; [done|].
  destruct (routes_ s !! p); [done|]. by intros _.
Qed.

(** ** OnReadMessage *)

(** OnReadMessage returns on every frame; it never touches the raw channel
    or the route table, and never deletes the object. *)
Lemma OnReadMessage_Done v h s :
  ∃ s' t, OnReadMessage v h s = Done (s', t)
          ∧ channel_ s' = channel_ s ∧ routes_ s' = routes_ s
          ∧ existsb is_delete_this t = false.
Proof.
  unfold OnReadMessage.
  repeat (case_match; simpl); eauto 10.
Qed.

(** What one inbound frame does to the messages buffered for an unbound
    user route [p] and to the record of its closure. *)
Lemma OnReadMessage_unbound p v h s :
  p ≠ kInternalRoutingId →
  routes_ s !! p = None →
  ∃ s' t, OnReadMessage v h s = Done (s', t)
    ∧ filter (for_route p) (pending_messages_ s') =
        filter (for_route p) (pending_messages_ s ++ [mkPending v h])
    ∧ (p ∈ close_routes_ s' ↔ p ∈ close_routes_ s ∨ is_route_closed p v)
    ∧ Forall (λ e, ¬ reads_on_route p e) t.
Proof.
  intros Hp Hfree. unfold OnReadMessage, is_route_closed. cbv zeta.
  destruct (N.eqb_spec (route_id v) kInternalRoutingId) as [Hv|Hv].
  - assert (Hnot : ¬ for_route p (mkPending v h))
      by (unfold for_route; simpl; congruence).
    rewrite filter_app, (filter_cons_False _ _ _ Hnot), filter_nil, app_nil_r.
    destruct (N.eqb_spec (num_bytes v) internal_message_size) as [Hn|Hn];
      cbn [negb].
    { destruct (N.eqb_spec (Byte.to_N (nth 0 (bytes v) x00)) ROUTE_CLOSED)
        as [Hb|Hb]; cbn [negb].
      - case_decide as Hin.
        + do 2 eexists. split; [done|]. split; [done|].
          split; [|repeat constructor; by intros []].
          split; [tauto|]. intros [?|(_ & _ & _ & <-)]; done.
        + destruct (routes_ s !! load_le 8 (drop 1 (bytes v))) eqn:Hr;
            do 2 eexists; (split; [done|]); cbn [pending_messages_ close_routes_];
            (split; [done|]);
            (split; [rewrite elem_of_union, elem_of_singleton;
                     intuition congruence|]);
            repeat constructor; by intros [].
      - do 2 eexists. split; [done|]. split; [done|].
        split; [tauto|]. repeat constructor. by intros []. }
    do 2 eexists. split; [done|]. split; [done|].
    split; [tauto|]. repeat constructor. by intros [].
  - destruct (routes_ s !! route_id v) as [pipe|] eqn:Hr.
    + assert (Hnot : ¬ for_route p (mkPending v h)).
      { unfold for_route; simpl. intros Heq. rewrite Heq in Hr. congruence. }
      rewrite filter_app, (filter_cons_False _ _ _ Hnot), filter_nil, app_nil_r.
      do 2 eexists. split; [done|]. split; [done|].
      split; [tauto|]. repeat constructor. simpl.
      intros Heq. rewrite Heq in Hr. congruence.
    + do 2 eexists. split; [done|]. simpl. split; [done|].
      split; [tauto|]. constructor.
Qed.

(** The same for a whole sequence of inbound frames. *)
Lemma received_unbound p frames : ∀ s,
  p ≠ kInternalRoutingId →
  routes_ s !! p = None →
  ∃ s1 t1, run (received frames) s = Done (s1, t1)
    ∧ routes_ s1 = routes_ s
    ∧ filter (for_route p) (pending_messages_ s1) =
        filter (for_route p) (pending_messages_ s ++ (as_pending <$> frames))
    ∧ (p ∈ close_routes_ s1 ↔
         p ∈ close_routes_ s ∨ Exists (λ f : Frame, is_route_closed p f.1) frames)
    ∧ Forall (λ e, ¬ reads_on_route p e) t1.
Proof.
  induction frames as [|[v h] frames IH]; intros s Hp Hfree.
  - exists s, []. simpl. rewrite app_nil_r.
    repeat split; auto; rewrite ?Exists_nil; tauto.
  - destruct (OnReadMessage_Done v h s) as (s' & t & Hcall & _ & Hroutes & Hdel).
    destruct (OnReadMessage_unbound p v h s Hp Hfree)
      as (s'' & t' & Hcall' & Hpend & Hclosed & Hquiet).
    rewrite Hcall in Hcall'. injection Hcall' as <- <-.
    destruct (IH s' Hp) as (s1 & t1 & Hrun & Hroutes1 & Hpend1 & Hclosed1 & Hquiet1);
      [by rewrite Hroutes|].
    exists s1, (t ++ t1). simpl. rewrite Hcall, Hdel, Hrun.
    split; [done|]. split; [congruence|]. split.
    + rewrite Hpend1, filter_app, Hpend, <- filter_app, <- app_assoc. done.
    + split; [|by apply Forall_app].
      rewrite Hclosed1, Hclosed, Exists_cons. simpl. tauto.
Qed.

(** Refused frames on the internal route: the state stays as it was and
    the only thing that happens is the NOTREACHED. *)
Lemma OnReadMessage_malformed v h s :
  malformed_control s v →
  ∃ msg, OnReadMessage v h s = Done (s, [NotReached msg]).
Proof.
  intros [Hroute Hbad]. unfold OnReadMessage. cbv zeta.
  destruct (N.eqb_spec (route_id v) kInternalRoutingId) as [_|]; [|done].
  destruct (N.eqb_spec (num_bytes v) internal_message_size) as [Hn|Hn];
    cbn [negb]; [|eauto].
  destruct (N.eqb_spec (Byte.to_N (nth 0 (bytes v) x00)) ROUTE_CLOSED)
    as [Hb|Hb]; cbn [negb]; [|eauto].
  case_decide; [eauto|]. tauto.
Qed.

(** The first ROUTE_CLOSED for [p]: it is recorded, and the dispatcher
    bound to [p], if there is one, hears of it. *)
Lemma OnReadMessage_route_closed p v h s :
  is_route_closed p v →
  p ∉ close_routes_ s →
  OnReadMessage v h s =
    Done (mkState (channel_ s) (routes_ s) (pending_messages_ s)
                  ({[p]} ∪ close_routes_ s),
          match routes_ s !! p with
          | Some d => [PipeOnError d ERROR_READ_SHUTDOWN]
          | None => []
          end).
Proof.
  intros (Hr & Hn & Hb & Hl) Hnew. unfold OnReadMessage. cbv zeta.
  rewrite Hr, N.eqb_refl, Hn, N.eqb_refl, Hb, N.eqb_refl, Hl. cbn [negb].
  rewrite decide_False by done. by destruct (routes_ s !! p).
Qed.

(** ** RemoveRoute, once its CHECKs hold *)

Lemma RemoveRoute_Done p d s :
  routes_ s !! p = Some d →
  RemoveRoute p d s =
    Done (mkState (channel_ s) (delete p (routes_ s)) (pending_messages_ s)
                  (if decide (p ∈ close_routes_ s)
                   then close_routes_ s ∖ {[p]} else close_routes_ s),
          (if decide (p ∈ close_routes_ s) then []
           else if channel_ s
                then [ChannelWriteMessage (route_closed_message p)] else [])
          ++ (if negb (channel_ s) && bool_decide (delete p (routes_ s) = ∅)
              then [DeleteSoon] else [])).
Proof.
  intros Hbound. unfold RemoveRoute. rewrite Hbound, N.eqb_refl. cbn [negb].
  case_decide; [done|]. by destruct (channel_ s).
Qed.

Lemma RemoveRoute_inv p d s s' t :
  RemoveRoute p d s = Done (s', t) → routes_ s !! p = Some d.
Proof.
  unfold RemoveRoute. destruct (routes_ s !! p) as [bound|]; [|done].
  destruct (N.eqb_spec bound d) as [->|]; [done|]. by cbn [negb].
Qed.

(** ** OnError, while the raw channel exists *)

Lemma OnError_Done e s :
  channel_ s = true →
  OnError e s =
    Done (mkState false (routes_ s) (pending_messages_ s) (close_routes_ s),
          ChannelShutdown ::
            (if bool_decide (routes_ s = ∅) then [DeleteThis]
             else notify_routes e (routes_ s))).
Proof.
  intros Hch. unfold OnError. rewrite Hch. cbn [negb]. by case_bool_decide.
Qed.

Lemma OnError_inv e s s' t :
  OnError e s = Done (s', t) → channel_ s = true.
Proof. unfold OnError. by destruct (channel_ s). Qed.

(** A dispatcher hears of the error once for each of its bindings. *)
Lemma errors_to_notify d e (l : list (N * N)) :
  errors_to d ((λ kv, PipeOnError kv.2 e) <$> l) =
    replicate (length (filter (λ kv, kv.2 = d) l)) e.
Proof.
  induction l as [|[k x] l IH]; [done|].
  unfold errors_to in *. cbn [fmap list_fmap omap list_omap snd].
  rewrite filter_cons. cbn [snd]. case_decide; simpl; by rewrite IH.
Qed.

(** A dispatcher bound to exactly one pipe has exactly one binding. *)
Lemma bindings_of_unique d p (routes : gmap N N) :
  routes !! p = Some d →
  (∀ q, routes !! q = Some d → q = p) →
  length (bindings_of d routes) = 1%nat.
Proof.
  intros Hp Honly. unfold bindings_of.
  assert (Hnodup : NoDup (filter (λ kv : N * N, kv.2 = d) (map_to_list routes)))
    by apply NoDup_filter, NoDup_map_to_list.
  assert (Hin : (p, d) ∈ filter (λ kv : N * N, kv.2 = d) (map_to_list routes))
    by (apply list_elem_of_filter; split; [done|by apply elem_of_map_to_list]).
  assert (Hall : ∀ kv, kv ∈ filter (λ kv : N * N, kv.2 = d) (map_to_list routes)
                       → kv = (p, d)).
  { intros [q x] [Hx Hq]%list_elem_of_filter. simpl in Hx. subst x.
    apply elem_of_map_to_list in Hq. by rewrite (Honly q Hq). }
  destruct (filter _ (map_to_list routes)) as [|kv1 [|kv2 l]].
  - by apply elem_of_nil in Hin.
  - done.
  - exfalso. apply NoDup_cons in Hnodup as [Hnot _]. apply Hnot.
    rewrite (Hall kv1), <- (Hall kv2); [left|right; left|left].
Qed.

(** No traffic from the dispatcher calls of OnError. *)
Lemma notify_routes_pipe_calls e routes :
  Forall is_pipe_call (notify_routes e routes).
Proof. unfold notify_routes. apply Forall_fmap, Forall_true. by intros []. Qed.

(** ** Removing every route after the raw channel is gone *)

(** When the raw channel is gone, unbinding all the routes, in whatever
    order, posts DeleteSoon once, from the last RemoveRoute, and does
    nothing else. *)
Lemma removals_after_shutdown ps : ∀ s,
  channel_ s = false →
  ps ≠ [] →
  NoDup ps.*1 →
  (∀ p d, (p, d) ∈ ps ↔ routes_ s !! p = Some d) →
  ∃ s', run (removals ps) s = Done (s', [DeleteSoon]) ∧ routes_ s' = ∅.
Proof.
  induction ps as [|[p d] ps IH]; intros s Hch Hne Hnodup Hmem; [done|].
  assert (Hp : routes_ s !! p = Some d) by (apply Hmem; left).
  apply NoDup_cons in Hnodup as [Hfresh Hnodup].
  assert (Hother : ∀ k y, (k, y) ∈ ps → k ≠ p).
  { intros k y Hin ->. apply Hfresh. apply list_elem_of_fmap. by exists (p, y). }
  clear Hfresh.
  cbn [removals fmap list_fmap run call fst snd].
  rewrite (RemoveRoute_Done _ _ _ Hp), Hch. cbn [negb andb].
  assert (Hnone : (if decide (p ∈ close_routes_ s) then []
                   else if false then [ChannelWriteMessage (route_closed_message p)]
                        else []) = @nil Event) by (by case_decide).
  rewrite Hnone. cbn [app].
  destruct ps as [|[q x] ps].
  - assert (Hempty : delete p (routes_ s) = ∅).
    { apply map_eq. intros k. rewrite lookup_empty.
      destruct (decide (k = p)) as [->|Hk]; [by rewrite lookup_delete_eq|].
      rewrite lookup_delete_ne by done.
      destruct (routes_ s !! k) as [x|] eqn:Hx; [|done].
      apply Hmem in Hx. apply list_elem_of_singleton in Hx. congruence. }
    rewrite bool_decide_eq_true_2 by done. simpl. eauto.
  - assert (Hq : delete p (routes_ s) !! q = Some x).
    { rewrite lookup_delete_ne by (symmetry; eapply Hother; left).
      apply Hmem. right; left. }
    rewrite bool_decide_eq_false_2 by (intros Heq; by rewrite Heq in Hq).
    cbn [existsb].
    edestruct (IH (mkState false (delete p (routes_ s)) (pending_messages_ s)
                     (if decide (p ∈ close_routes_ s)
                      then close_routes_ s ∖ {[p]} else close_routes_ s)))
      as (s' & Hrun & Hroutes); [done|done|done| |].
    + intros k y. cbn [routes_]. split.
      * intros Hin. rewrite lookup_delete_ne by (symmetry; by eapply Hother).
        apply Hmem. by right.
      * intros Hk. destruct (decide (k = p)) as [->|Hkp];
          [by rewrite lookup_delete_eq in Hk|].
        rewrite lookup_delete_ne in Hk by done.
        apply Hmem in Hk. apply elem_of_cons in Hk as [Heq|]; [congruence|done].
    + fold (removals ((q, x) :: ps)). rewrite Hrun. eauto.
Qed.

(** ** The bytes of the internal message *)

Lemma to_N_byte_of_N v : Byte.to_N (byte_of_N v) = v mod 256.
Proof.
  unfold byte_of_N. destruct (Byte.of_N (v mod 256)) as [b|] eqn:Hb.
  - by apply Byte.to_of_N.
  - apply Byte.of_N_None_iff in Hb.
    pose proof (N.mod_upper_bound v 256). lia.
Qed.

(** Reading back what was stored gives the value, reduced to the width
    that was stored. *)
Lemma load_store_le n : ∀ v, load_le n (store_le n v) = v mod 256 ^ N.of_nat n.
Proof.
  induction n as [|n IH]; intros v.
  - simpl. by rewrite N.mod_1_r.
  - cbn [store_le load_le]. rewrite IH, to_N_byte_of_N.
    rewrite Nat2N.inj_succ, N.pow_succ_r'.
    rewrite (N.Div0.mod_mul_r v 256 (256 ^ N.of_nat n)). lia.
Qed.

Lemma store_le_length n : ∀ v, length (store_le n v) = n.
Proof. induction n as [|n IH]; intros v; simpl; [done|by rewrite IH]. Qed.

(** Byte [i] of a stored value is digit [i] of the value in base 256. *)
Lemma store_le_nth n : ∀ v i,
  (i < n)%nat →
  Byte.to_N (nth i (store_le n v) x00) = (v / 256 ^ N.of_nat i) mod 256.
Proof.
  induction n as [|n IH]; intros v i Hi; [lia|].
  destruct i as [|i]; cbn [store_le nth].
  - rewrite to_N_byte_of_N. simpl. by rewrite N.div_1_r.
  - rewrite IH by lia. rewrite Nat2N.inj_succ, N.pow_succ_r'.
    by rewrite N.Div0.div_div.
Qed.

(** A pipe id that fits in a [uint64_t] is read back from the message that
    RemoveRoute builds for it. *)
Lemma route_closed_message_wf p :
  p < 2 ^ 64 → is_route_closed p (route_closed_message p).
Proof.
  intros Hp. unfold is_route_closed, route_closed_message, num_bytes.
  cbn [route_id bytes length drop nth].
  rewrite store_le_length, to_N_byte_of_N.
  repeat split; try done.
  rewrite drop_0, load_store_le. apply N.mod_small. exact Hp.
Qed.

(** ** When the object is destroyed *)

Lemma AddRoute_no_destruction p d s s' t :
  AddRoute p d s = Done (s', t) →
  Forall (λ e, ¬ is_destruction e) t ∧ routes_ s' ≠ ∅.
Proof.
  intros Hadd. destruct (AddRoute_inv _ _ _ _ _ Hadd) as [Hp Hfree].
  rewrite AddRoute_Done in Hadd by done. injection Hadd as <- <-. split.
  - apply Forall_app. split.
    + apply Forall_fmap, Forall_true. intros pm [|]; done.
    + case_decide; repeat constructor. intros [|]; done.
  - cbn [routes_]. apply insert_non_empty.
Qed.

Lemma OnReadMessage_no_destruction v h s s' t :
  OnReadMessage v h s = Done (s', t) →
  Forall (λ e, ¬ is_destruction e) t
  ∧ channel_ s' = channel_ s ∧ routes_ s' = routes_ s.
Proof.
  unfold OnReadMessage.
  repeat (case_match; simpl); intros [= <- <-];
    (split; [repeat constructor; intros [|]; done|done]).
Qed.

(** A call that leaves the object with no raw channel and no route, and
    that did not find it so, destroys it. *)
Lemma call_destruction c s s' t :
  call c s = Done (s', t) →
  channel_ s = true ∨ routes_ s ≠ ∅ →
  channel_ s' = false → routes_ s' = ∅ →
  Exists is_destruction t.
Proof.
  intros Hcall Hlive Hch Hroutes. destruct c as [p d|p d|v h|e]; simpl in Hcall.
  - apply AddRoute_no_destruction in Hcall as [_ Hne]. done.
  - pose proof (RemoveRoute_inv _ _ _ _ _ Hcall) as Hp.
    rewrite RemoveRoute_Done in Hcall by done. injection Hcall as <- <-.
    cbn [channel_ routes_] in Hch, Hroutes.
    rewrite Hch, Hroutes, bool_decide_eq_true_2 by done.
    apply Exists_app. right. constructor. by left.
  - apply OnReadMessage_no_destruction in Hcall as (_ & Hc & Hr).
    rewrite <- Hc, <- Hr in Hlive. destruct Hlive; congruence.
  - pose proof (OnError_inv _ _ _ _ Hcall) as Hup.
    rewrite OnError_Done in Hcall by done. injection Hcall as <- <-.
    cbn [routes_] in Hroutes.
    rewrite bool_decide_eq_true_2 by done.
    right. left. by right.
Qed.

Lemma run_destruction cs : ∀ s s' t,
  run cs s = Done (s', t) →
  channel_ s = true ∨ routes_ s ≠ ∅ →
  channel_ s' = false → routes_ s' = ∅ →
  Exists is_destruction t.
Proof.
  induction cs as [|c cs IH]; intros s s' t Hrun Hlive Hch Hroutes.
  - injection Hrun as <- <-. destruct Hlive; congruence.
  - cbn [run] in Hrun.
    destruct (call c s) as [[s1 t1]| |] eqn:Hcall; [|done..].
    destruct (existsb is_delete_this t1) eqn:Hdel.
    + apply existsb_exists in Hdel as (e & Hin & He).
      destruct e; try done.
      destruct cs; [|done]. injection Hrun as <- <-.
      apply Exists_exists. exists DeleteThis.
      split; [by apply list_elem_of_In|by right].
    + destruct (run cs s1) as [[s2 t2]| |] eqn:Hrest; [|done..].
      injection Hrun as <- <-. apply Exists_app.
      destruct (channel_ s1) eqn:Hch1.
      { right. eapply IH; eauto. }
      destruct (decide (routes_ s1 = ∅)) as [Hr1|Hr1].
      * left. eapply call_destruction; eauto.
      * right. eapply IH; eauto.
Qed.

End RoutedRawChannelFacts.

(** * Binding a route *)

Section AddRouteClaims.
Import RoutedRawChannel.

(** C1.  Let [p] be a user route that is not bound, and let [frames] arrive
    (for any routes, ROUTE_CLOSED messages included) before [AddRoute p d]
    is called.  The frames are all taken, none of those for [p] reaches a
    dispatcher meanwhile, and AddRoute then calls, on [d] and in this
    order: OnReadMessage for every buffered message of route [p], oldest
    first (those buffered before [frames], then those of [frames] in order
    of arrival), and after all of them one OnError(ERROR_READ_SHUTDOWN) if
    and only if a ROUTE_CLOSED for [p] had been recorded or has arrived. *)
Theorem C1_AddRoute_delivers_buffered_in_order
    (p d : N) (s : State) (frames : list Frame) :
  p ≠ kInternalRoutingId →
  routes_ s !! p = None →
  ∃ s1 t1 s2,
    run (received frames) s = Done (s1, t1)
    ∧ Forall (λ e, ¬ reads_on_route p e) t1
    ∧ AddRoute p d s1 =
        Done (s2,
              (deliver d <$>
                 filter (for_route p) (pending_messages_ s ++ (as_pending <$> frames)))
              ++ (if decide (p ∈ close_routes_ s
                             ∨ Exists (λ f : Frame, is_route_closed p f.1) frames)
                  then [PipeOnError d ERROR_READ_SHUTDOWN] else [])).
Proof.
  intros Hp Hfree.
  destruct (received_unbound p frames s Hp Hfree)
    as (s1 & t1 & Hrun & Hroutes & Hpend & Hclosed & Hquiet).
  exists s1, t1. eexists. split; [exact Hrun|]. split; [exact Hquiet|].
  rewrite AddRoute_Done by (done || by rewrite Hroutes).
  rewrite Hpend. do 2 f_equal.
  destruct (decide (p ∈ close_routes_ s1)) as [Hin|Hin];
    case_decide as Hc; tauto.
Qed.

(** The registration race of the specification: two frames for route 7 and
    then ROUTE_CLOSED(7) arrive, a frame for route 9 in between, before
    route 7 is bound. *)
Lemma C1_AddRoute_delivers_buffered_in_order_witness :
  let F1 : Frame := (mkView MESSAGE 7 [x01], [11]) in
  let G : Frame := (mkView MESSAGE 9 [x09], []) in
  let F2 : Frame := (mkView MESSAGE 7 [x02; x03], []) in
  let closed7 : Frame := (route_closed_message 7, []) in
  7 ≠ kInternalRoutingId
  ∧ routes_ initial !! 7 = None
  ∧ ∃ s1 t1 s2,
      run (received [F1; G; F2; closed7]) initial = Done (s1, t1)
      ∧ Forall (λ e, ¬ reads_on_route 7 e) t1
      ∧ AddRoute 7 100 s1 =
          Done (s2, [PipeOnReadMessage 100 F1.1 F1.2;
                     PipeOnReadMessage 100 F2.1 F2.2;
                     PipeOnError 100 ERROR_READ_SHUTDOWN]).
Proof.
  intros F1 G F2 closed7.
  split; [done|]. split; [reflexivity|].
  exact (C1_AddRoute_delivers_buffered_in_order 7 100 initial
           [F1; G; F2; closed7] ltac:(done) ltac:(reflexivity)).
Defined.

(** C10.  AddRoute takes out of the pending buffer exactly the messages of
    the route it binds: what stays is the old buffer without those
    messages, every other message still there and in the same order. *)
Theorem C10_AddRoute_keeps_other_routes_pending
    (p d : N) (s s' : State) (t : list Event) :
  AddRoute p d s = Done (s', t) →
  pending_messages_ s' = filter (λ pm, ¬ for_route p pm) (pending_messages_ s)
  ∧ (∀ pm, pm ∈ pending_messages_ s' ↔ pm ∈ pending_messages_ s ∧ ¬ for_route p pm)
  ∧ pending_messages_ s' `sublist_of` pending_messages_ s.
Proof.
  intros Hadd. destruct (AddRoute_inv _ _ _ _ _ Hadd) as [Hp Hfree].
  rewrite AddRoute_Done in Hadd by done. injection Hadd as <- <-. simpl.
  split; [done|]. split.
  - intros pm. rewrite list_elem_of_filter. tauto.
  - apply sublist_filter.
Qed.

Lemma C10_AddRoute_keeps_other_routes_pending_witness :
  let m1 := mkPending (mkView MESSAGE 9 [x01]) [] in
  let m2 := mkPending (mkView MESSAGE 7 [x02]) [] in
  let m3 := mkPending (mkView MESSAGE 7 [x03]) [] in
  let m4 := mkPending (mkView MESSAGE 5 [x04]) [] in
  let s := mkState true ∅ [m1; m2; m3; m4] ∅ in
  let s' := mkState true {[7 := 100]} [m1; m4] ∅ in
  AddRoute 7 100 s = Done (s', [deliver 100 m2; deliver 100 m3])
  ∧ pending_messages_ s' = [m1; m4].
Proof.
  intros m1 m2 m3 m4 s s'.
  assert (Hadd : AddRoute 7 100 s = Done (s', [deliver 100 m2; deliver 100 m3]))
    by reflexivity.
  split; [exact Hadd|].
  exact (proj1 (C10_AddRoute_keeps_other_routes_pending 7 100 s s' _ Hadd)).
Defined.

End AddRouteClaims.

(** * Closing a route *)

Section RouteClosedClaims.
Import RoutedRawChannel.

(** C2, as far as it holds.  Let RemoveRoute(p) return.  It hands a message
    to the raw channel if and only if [p] is not recorded in
    [close_routes_] and the raw channel exists, and that message is the
    ROUTE_CLOSED for [p]; if [p] is recorded, RemoveRoute erases the record
    and sends nothing; either way [p] is not recorded afterwards.  Before
    that RemoveRoute, a ROUTE_CLOSED for [p] that arrives while [p] is not
    recorded is passed to the bound dispatcher as one
    OnError(ERROR_READ_SHUTDOWN) and recorded, and one that arrives while
    [p] is recorded is dropped without any call on a dispatcher. *)
Theorem C2_RemoveRoute_answers_no_ROUTE_CLOSED
    (p d : N) (s s' : State) (t : list Event) :
  RemoveRoute p d s = Done (s', t) →
  (written t = [route_closed_message p]
     ↔ (p ∉ close_routes_ s) ∧ channel_ s = true)
  ∧ (written t = [] ↔ p ∈ close_routes_ s ∨ channel_ s = false)
  ∧ (p ∈ close_routes_ s → close_routes_ s' = close_routes_ s ∖ {[p]})
  ∧ (p ∉ close_routes_ s')
  ∧ (∀ v h, is_route_closed p v → p ∉ close_routes_ s →
       ∃ s1, OnReadMessage v h s = Done (s1, [PipeOnError d ERROR_READ_SHUTDOWN])
             ∧ p ∈ close_routes_ s1)
  ∧ (∀ v h, is_route_closed p v → p ∈ close_routes_ s →
       ∃ msg, OnReadMessage v h s = Done (s, [NotReached msg])).
Proof.
  intros Hrm. pose proof (RemoveRoute_inv _ _ _ _ _ Hrm) as Hp.
  rewrite RemoveRoute_Done in Hrm by done. injection Hrm as <- <-.
  cbn [close_routes_].
  assert (Hw : ∀ sent, written
            (sent ++ (if negb (channel_ s) && bool_decide (delete p (routes_ s) = ∅)
                      then [DeleteSoon] else [])) = written sent).
  { intros sent. unfold written. rewrite omap_app.
    destruct (negb _ && _); simpl; by rewrite app_nil_r. }
  rewrite Hw. clear Hw.
  assert (Hdup : ∀ v h, is_route_closed p v → p ∈ close_routes_ s →
            ∃ msg, OnReadMessage v h s = Done (s, [NotReached msg])).
  { intros v h (Hr & Hn & Hb & Hl) Hin.
    apply OnReadMessage_malformed. split; [done|]. right; right. by rewrite Hl. }
  assert (Hfirst : ∀ v h, is_route_closed p v → p ∉ close_routes_ s →
            ∃ s1, OnReadMessage v h s = Done (s1, [PipeOnError d ERROR_READ_SHUTDOWN])
                  ∧ p ∈ close_routes_ s1).
  { intros v h Hv Hnew. rewrite (OnReadMessage_route_closed p) by done.
    rewrite Hp. eexists. split; [done|]. cbn [close_routes_].
    apply elem_of_union. left. by apply elem_of_singleton. }
  destruct (decide (p ∈ close_routes_ s)) as [Hin|Hin].
  - cbn [written omap list_omap].
    split; [split; [done|by intros [? _]]|].
    split; [split; [by left|done]|].
    split; [done|].
    split; [rewrite elem_of_difference, elem_of_singleton; tauto|done].
  - destruct (channel_ s) eqn:Hch; cbn [written omap list_omap app].
    + split; [done|].
      split; [split; [done|by intros [|]]|].
      done.
    + split; [split; [done|by intros [_ ?]]|].
      split; [split; [by right|done]|].
      done.
Qed.

Lemma C2_RemoveRoute_answers_no_ROUTE_CLOSED_witness :
  let s := mkState true {[7 := 100]} [] {[7]} in
  let s' := mkState true ∅ [] ∅ in
  RemoveRoute 7 100 s = Done (s', [])
  ∧ written [] = [] ∧ 7 ∉ close_routes_ s'.
Proof.
  intros s s'.
  assert (Hrm : RemoveRoute 7 100 s = Done (s', [])) by reflexivity.
  pose proof (C2_RemoveRoute_answers_no_ROUTE_CLOSED 7 100 s s' [] Hrm)
    as (_ & Hnone & _ & Hgone & _).
  split; [exact Hrm|]. split; [reflexivity|exact Hgone].
Defined.

(** Against C2 as stated: both sides bind pipe 7 and both remove it before
    the other side's message has arrived.  Each side sends a ROUTE_CLOSED
    for pipe 7, each side then takes the other's, and no dispatcher on
    either side is ever called. *)
Lemma C2_both_sides_send_ROUTE_CLOSED :
  ∃ y,
    Link.steps [Link.DoAddRoute Link.SideA 7 1; Link.DoAddRoute Link.SideB 7 2;
                Link.DoRemoveRoute Link.SideA 7 1; Link.DoRemoveRoute Link.SideB 7 2;
                Link.Arrive Link.SideA; Link.Arrive Link.SideB] Link.start
      = Done y
    ∧ written (Link.trace_a y) = [route_closed_message 7]
    ∧ written (Link.trace_b y) = [route_closed_message 7]
    ∧ Link.to_a y = [] ∧ Link.to_b y = []
    ∧ Forall (λ e, ¬ is_pipe_call e) (Link.trace_a y ++ Link.trace_b y).
Proof.
  eexists. split; [vm_compute; reflexivity|].
  cbn [Link.trace_a Link.trace_b Link.to_a Link.to_b].
  repeat split; repeat constructor; by intros [].
Qed.

(** C3, as far as it holds.  A frame on the internal route with a payload
    that is not 1+8 bytes long, or whose first byte is not ROUTE_CLOSED, or
    that repeats a ROUTE_CLOSED for a pipe still recorded in
    [close_routes_], is dropped: OnReadMessage returns with the state as it
    was (raw channel, routes, pending messages and closed routes), having
    reached a NOTREACHED and having called no dispatcher, the raw channel
    or the message loop. *)
Theorem C3_malformed_control_frame_is_dropped
    (s : State) (v : View) (h : list N) :
  malformed_control s v →
  ∃ t, OnReadMessage v h s = Done (s, t)
       ∧ (∃ msg, t = [NotReached msg])
       ∧ Forall (λ e, ¬ is_pipe_call e ∧ ¬ is_transport_call e) t.
Proof.
  intros Hbad. destruct (OnReadMessage_malformed v h s Hbad) as [msg Hcall].
  exists [NotReached msg]. split; [done|]. split; [eauto|].
  repeat constructor; by intros [].
Qed.

Lemma C3_malformed_control_frame_is_dropped_witness :
  let s := mkState true {[7 := 100]} [] {[5]} in
  let again := route_closed_message 5 in
  malformed_control s again
  ∧ ∃ t, OnReadMessage again [] s = Done (s, t)
         ∧ (∃ msg, t = [NotReached msg])
         ∧ Forall (λ e, ¬ is_pipe_call e ∧ ¬ is_transport_call e) t.
Proof.
  intros s again.
  assert (Hbad : malformed_control s again).
  { split; [reflexivity|]. right; right.
    assert (Hid : load_le 8 (drop 1 (bytes again)) = 5) by reflexivity.
    rewrite Hid. reflexivity. }
  split; [exact Hbad|].
  exact (C3_malformed_control_frame_is_dropped s again [] Hbad).
Defined.

(** Against C3 as stated: with pipe 7 bound and the raw channel up, a
    one-byte frame arrives on the internal route.  The frame is dropped,
    but nothing is torn down: the raw channel is neither shut down nor
    reset, no dispatcher hears of an error, the object is not deleted, and
    the next frame for pipe 7 is delivered as usual. *)
Lemma C3_malformed_control_frame_tears_nothing_down :
  let s := mkState true {[7 := 100]} [] ∅ in
  let short := mkView MESSAGE 0 [x00] in
  let next := mkView MESSAGE 7 [x2a] in
  malformed_control s short
  ∧ OnReadMessage short [] s =
      Done (s, [NotReached "Invalid internal message in RoutedRawChannel."])
  ∧ channel_ s = true
  ∧ OnReadMessage next [] s = Done (s, [PipeOnReadMessage 100 next []]).
Proof.
  intros s short next. split; [|by repeat split].
  split; [reflexivity|]. by left.
Qed.

(** C4.  The message that RemoveRoute hands to the raw channel has route id
    0 and a payload of 1+8 bytes: a zero byte (ROUTE_CLOSED), then the
    eight bytes of the pipe id from the least to the most significant, from
    which a 64-bit pipe id is read back; and RemoveRoute does send it when
    the route is bound, not recorded as closed, and the raw channel exists.
    An inbound frame on the internal route with fewer than 1+8 payload
    bytes is dropped with no call on any dispatcher, leaves the state as it
    was, and the frame that follows is handled as if the short one had
    never arrived. *)
Theorem C4_ROUTE_CLOSED_frame_layout :
  (∀ p d s s' t m,
     RemoveRoute p d s = Done (s', t) → ChannelWriteMessage m ∈ t →
     type m = MESSAGE
     ∧ route_id m = 0
     ∧ num_bytes m = 1 + 8
     ∧ Byte.to_N (nth 0 (bytes m) x00) = 0
     ∧ (∀ i, (i < 8)%nat →
          Byte.to_N (nth (S i) (bytes m) x00) = (p / 256 ^ N.of_nat i) mod 256)
     ∧ (p < 2 ^ 64 → load_le 8 (drop 1 (bytes m)) = p))
  ∧ (∀ p d s,
       routes_ s !! p = Some d → p ∉ close_routes_ s → channel_ s = true →
       ∃ s' t, RemoveRoute p d s = Done (s', t)
               ∧ t = [ChannelWriteMessage (route_closed_message p)])
  ∧ (∀ s v h,
       route_id v = 0 → num_bytes v < 1 + 8 →
       ∃ msg, OnReadMessage v h s = Done (s, [NotReached msg])
         ∧ ∀ g hg, ∃ s2 t2,
             OnReadMessage g hg s = Done (s2, t2)
             ∧ run [CallOnReadMessage v h; CallOnReadMessage g hg] s
                 = Done (s2, NotReached msg :: t2)).
Proof.
  split; [|split].
  - intros p d s s' t m Hrm Hin.
    pose proof (RemoveRoute_inv _ _ _ _ _ Hrm) as Hp.
    rewrite RemoveRoute_Done in Hrm by done. injection Hrm as <- <-.
    assert (Hm : m = route_closed_message p).
    { apply elem_of_app in Hin as [Hin|Hin].
      - case_decide; [by apply elem_of_nil in Hin|].
        destruct (channel_ s); [|by apply elem_of_nil in Hin].
        apply list_elem_of_singleton in Hin. congruence.
      - destruct (negb _ && _); [|by apply elem_of_nil in Hin].
        by apply list_elem_of_singleton in Hin. }
    subst m. unfold route_closed_message, num_bytes.
    cbn [type route_id bytes length nth].
    rewrite store_le_length, to_N_byte_of_N.
    repeat split; try done.
    + intros i Hi. by apply store_le_nth.
    + intros Hp64. apply (route_closed_message_wf p Hp64).
  - intros p d s Hp Hnew Hch. rewrite RemoveRoute_Done by done.
    rewrite Hch. destruct (decide (p ∈ close_routes_ s)); [done|].
    do 2 eexists. split; reflexivity.
  - intros s v h Hroute Hshort.
    destruct (OnReadMessage_malformed v h s) as [msg Hcall].
    { split; [done|]. left. unfold internal_message_size. lia. }
    exists msg. split; [done|]. intros g hg.
    destruct (OnReadMessage_Done g hg s) as (s2 & t2 & Hg & _ & _ & Hdel).
    exists s2, t2. split; [done|].
    cbn [run call]. rewrite Hcall. cbn [existsb is_delete_this orb].
    rewrite Hg. cbn [existsb]. rewrite Hdel. by rewrite app_nil_r.
Qed.

Lemma C4_ROUTE_CLOSED_frame_layout_witness :
  let s := mkState true {[258 := 100]} [] ∅ in
  let short := mkView MESSAGE 0 [x00] in
  let next := mkView MESSAGE 258 [x2a] in
  (∃ s', RemoveRoute 258 100 s =
           Done (s', [ChannelWriteMessage
                        (mkView MESSAGE 0 [x00; x02; x01; x00; x00; x00; x00; x00; x00])]))
  ∧ ∃ msg, run [CallOnReadMessage short []; CallOnReadMessage next []] s
           = Done (s, [NotReached msg; PipeOnReadMessage 100 next []]).
Proof.
  intros s short next.
  destruct C4_ROUTE_CLOSED_frame_layout as (_ & Hsent & Hshort).
  split.
  - destruct (Hsent 258 100 s) as (s' & t & Hrm & ->);
      [reflexivity|apply not_elem_of_empty|reflexivity|].
    exists s'. exact Hrm.
  - destruct (Hshort s short []) as (msg & _ & Hnext); [reflexivity..|].
    exists msg. destruct (Hnext next []) as (s2 & t2 & Hg & Hrun).
    injection Hg as <- <-. exact Hrun.
Defined.

End RouteClosedClaims.

(** * Losing the raw channel and destroying the object *)

Section DestructionClaims.
Import RoutedRawChannel.

(** C5.  A RemoveRoute that returns posts DeleteSoon exactly when it leaves
    the object without raw channel and without routes, and never deletes
    inline.  An OnError that returns leaves the object without raw channel
    and deletes it, inline, exactly when no route is bound.  AddRoute and
    OnReadMessage never destroy the object.  And in every sequence of
    calls on a new object, if the object ends up without raw channel and
    without routes, its destruction has been requested. *)
Theorem C5_destruction_iff_channel_down_and_no_routes :
  (∀ p d s s' t,
     RemoveRoute p d s = Done (s', t) →
     (DeleteSoon ∈ t ↔ channel_ s' = false ∧ routes_ s' = ∅)
     ∧ DeleteThis ∉ t)
  ∧ (∀ e s s' t,
       OnError e s = Done (s', t) →
       channel_ s' = false
       ∧ (DeleteThis ∈ t ↔ routes_ s' = ∅)
       ∧ DeleteSoon ∉ t)
  ∧ (∀ p d s s' t,
       AddRoute p d s = Done (s', t) → Forall (λ e, ¬ is_destruction e) t)
  ∧ (∀ v h s s' t,
       OnReadMessage v h s = Done (s', t) → Forall (λ e, ¬ is_destruction e) t)
  ∧ (∀ cs s' t,
       run cs initial = Done (s', t) →
       channel_ s' = false → routes_ s' = ∅ →
       Exists is_destruction t).
Proof.
  repeat apply conj.
  - intros p d s s' t Hrm. pose proof (RemoveRoute_inv _ _ _ _ _ Hrm) as Hp.
    rewrite RemoveRoute_Done in Hrm by done. injection Hrm as <- <-.
    cbn [channel_ routes_].
    assert (Hsent : ∀ e, e ∈ (if decide (p ∈ close_routes_ s) then []
                     else if channel_ s
                          then [ChannelWriteMessage (route_closed_message p)]
                          else []) → e = ChannelWriteMessage (route_closed_message p)).
    { intros e. case_decide; [by intros ?%elem_of_nil|].
      destruct (channel_ s); [by intros ?%list_elem_of_singleton
                             |by intros ?%elem_of_nil]. }
    split; [split|].
    + intros [Hin|Hin]%elem_of_app; [by apply Hsent in Hin|].
      destruct (channel_ s); [by apply elem_of_nil in Hin|].
      case_bool_decide; [done|by apply elem_of_nil in Hin].
    + intros [-> ->]. rewrite bool_decide_eq_true_2 by done.
      apply elem_of_app. right. by apply list_elem_of_singleton.
    + intros [Hin|Hin]%elem_of_app; [by apply Hsent in Hin|].
      destruct (negb _ && _); [by apply list_elem_of_singleton in Hin
                              |by apply elem_of_nil in Hin].
  - intros e s s' t Herr. pose proof (OnError_inv _ _ _ _ Herr) as Hup.
    rewrite OnError_Done in Herr by done. injection Herr as <- <-.
    cbn [channel_ routes_]. split; [done|].
    case_bool_decide as Hr.
    + split; [|by intros [?|[?|?%elem_of_nil]%elem_of_cons]%elem_of_cons].
      split; [done|]. intros _. right. left.
    + assert (Hquiet : ∀ ev, ev ∈ notify_routes e (routes_ s) → is_pipe_call ev).
      { intros ev. apply Forall_forall, notify_routes_pipe_calls. }
      split; [split; [|done]|].
      * intros [?|Hin]%elem_of_cons; [done|]. by apply Hquiet in Hin.
      * intros [?|Hin]%elem_of_cons; [done|]. by apply Hquiet in Hin.
  - intros p d s s' t Hadd. by apply AddRoute_no_destruction in Hadd as [? _].
  - intros v h s s' t Hrd. by apply OnReadMessage_no_destruction in Hrd as [? _].
  - intros cs s' t Hrun. eapply run_destruction; [exact Hrun|]. by left.
Qed.

(** Pipes 3 and 5 are bound, the raw channel fails, the pipes are
    removed: only the second RemoveRoute posts DeleteSoon. *)
Lemma C5_destruction_iff_channel_down_and_no_routes_witness :
  ∃ s' t,
    run [CallAddRoute 3 30; CallAddRoute 5 50; CallOnError (ERROR_OTHER 1);
         CallRemoveRoute 5 50; CallRemoveRoute 3 30] initial = Done (s', t)
    ∧ channel_ s' = false ∧ routes_ s' = ∅
    ∧ Exists is_destruction t.
Proof.
  eexists _, _.
  assert (Hrun : run [CallAddRoute 3 30; CallAddRoute 5 50;
                      CallOnError (ERROR_OTHER 1);
                      CallRemoveRoute 5 50; CallRemoveRoute 3 30] initial
                 = Done (mkState false ∅ [] ∅,
                         [ChannelShutdown; PipeOnError 50 (ERROR_OTHER 1);
                          PipeOnError 30 (ERROR_OTHER 1); DeleteSoon]))
    by (vm_compute; reflexivity).
  split; [exact Hrun|]. split; [reflexivity|]. split; [reflexivity|].
  destruct C5_destruction_iff_channel_down_and_no_routes as (_ & _ & _ & _ & Hall).
  exact (Hall _ _ _ Hrun eq_refl eq_refl).
Defined.

(** C6.  OnError, called while the raw channel exists, first shuts the raw
    channel down and forgets it.  With no route bound it then deletes the
    object at once.  Otherwise it calls OnError(e) on the bound
    dispatchers and nothing else: a dispatcher is called once for each
    route bound to it, so exactly once when it is bound to one pipe and
    not at all when it is bound to none; the object is not destroyed by
    that call, and when afterwards all the routes are removed, in whatever
    order, DeleteSoon is posted once, by the last RemoveRoute. *)
Theorem C6_OnError_shuts_down_then_notifies_each_route
    (e : Error) (s : State) :
  channel_ s = true →
  ∃ s' t,
    OnError e s = Done (s', ChannelShutdown :: t)
    ∧ channel_ s' = false ∧ routes_ s' = routes_ s
    ∧ (routes_ s = ∅ → t = [DeleteThis])
    ∧ (routes_ s ≠ ∅ →
         Forall (λ ev, ∃ p d, routes_ s !! p = Some d ∧ ev = PipeOnError d e) t
         ∧ (∀ d, errors_to d t = replicate (length (bindings_of d (routes_ s))) e)
         ∧ (∀ p d, routes_ s !! p = Some d →
                   (∀ q, routes_ s !! q = Some d → q = p) →
                   errors_to d t = [e])
         ∧ (∀ ps, ps ≡ₚ map_to_list (routes_ s) →
              ∃ s'', run (removals ps) s' = Done (s'', [DeleteSoon])
                     ∧ routes_ s'' = ∅)).
Proof.
  intros Hup. rewrite OnError_Done by done. do 2 eexists.
  split; [reflexivity|]. cbn [channel_ routes_].
  split; [done|]. split; [done|]. split.
  - intros ->. by rewrite bool_decide_eq_true_2.
  - intros Hne. rewrite bool_decide_eq_false_2 by done.
    split; [|split; [|split]].
    + unfold notify_routes. apply Forall_fmap, Forall_forall.
      intros [p d] Hin%elem_of_map_to_list. simpl. eauto.
    + intros d. apply errors_to_notify.
    + intros p d Hp Honly. unfold notify_routes. rewrite errors_to_notify.
      fold (bindings_of d (routes_ s)).
      by rewrite (bindings_of_unique d p).
    + intros ps Hps. apply removals_after_shutdown; [done| | |].
      * intros ->. apply Permutation_nil_l in Hps. symmetry in Hps.
        by apply map_to_list_empty_iff in Hps.
      * rewrite Hps. apply NoDup_fst_map_to_list.
      * intros p d. rewrite Hps. apply elem_of_map_to_list.
Qed.

(** Pipes 3, 5 and 7 are bound when the raw channel fails. *)
Lemma C6_OnError_shuts_down_then_notifies_each_route_witness :
  let s := mkState true {[3 := 30; 5 := 50; 7 := 70]} [] ∅ in
  channel_ s = true
  ∧ ∃ s' t,
      OnError (ERROR_OTHER 1) s = Done (s', ChannelShutdown :: t)
      ∧ errors_to 30 t = [(ERROR_OTHER 1)]
      ∧ errors_to 50 t = [(ERROR_OTHER 1)]
      ∧ errors_to 70 t = [(ERROR_OTHER 1)]
      ∧ ∃ s'', run (removals [(5, 50); (7, 70); (3, 30)]) s' = Done (s'', [DeleteSoon]).
Proof.
  intros s. split; [reflexivity|].
  destruct (C6_OnError_shuts_down_then_notifies_each_route (ERROR_OTHER 1) s
              eq_refl) as (s' & t & Herr & _ & _ & _ & Hbound).
  exists s', t. split; [exact Herr|].
  injection Herr as <- <-.
  repeat split; try reflexivity.
  eexists. vm_compute. reflexivity.
Defined.

End DestructionClaims.

(** * The local message pipe *)

Section MessagePipeClaims.
Import MessagePipe.

Lemma get_set port p mp : get port (set port p mp) = p.
Proof. by destruct port. Qed.

Lemma get_set_peer port p mp : get (peer port) (set port p mp) = get (peer port) mp.
Proof. by destruct port. Qed.

(** Which results ReadMessage gives, by the state of the queue. *)
Lemma ReadMessage_empty port buffer size hs hc flag mp :
  incoming (get port mp) = [] →
  ReadMessage port buffer size hs hc flag mp =
    mkRead (if peer_closed (get port mp) then MOJO_RESULT_FAILED_PRECONDITION
            else MOJO_RESULT_NOT_FOUND) buffer size hs hc mp.
Proof. intros Hq. unfold ReadMessage. by rewrite Hq. Qed.

Lemma ReadMessage_too_small port buffer size hs hc flag mp m rest :
  incoming (get port mp) = m :: rest →
  size < msg_size m ∨ hc < msg_handle_count m →
  ReadMessage port buffer size hs hc flag mp =
    mkRead MOJO_RESULT_RESOURCE_EXHAUSTED buffer (msg_size m) hs (msg_handle_count m)
           (if flag
            then set port (mkPort rest (peer_closed (get port mp))
                                  (self_closed (get port mp)) (waiters (get port mp))) mp
            else mp).
Proof.
  intros Hq Hsmall. unfold ReadMessage. rewrite Hq.
  destruct (N.ltb_spec size (msg_size m)), (N.ltb_spec hc (msg_handle_count m));
    simpl; try done. lia.
Qed.

Lemma ReadMessage_fits port buffer size hs hc flag mp m rest :
  incoming (get port mp) = m :: rest →
  msg_size m ≤ size → msg_handle_count m ≤ hc →
  ReadMessage port buffer size hs hc flag mp =
    mkRead MOJO_RESULT_OK
           (msg_bytes m ++ drop (length (msg_bytes m)) buffer) (msg_size m)
           (msg_handles m ++ drop (length (msg_handles m)) hs) (msg_handle_count m)
           (set port (mkPort rest (peer_closed (get port mp))
                             (self_closed (get port mp)) (waiters (get port mp))) mp).
Proof.
  intros Hq Hb Hh. unfold ReadMessage. rewrite Hq.
  destruct (N.ltb_spec size (msg_size m)), (N.ltb_spec hc (msg_handle_count m));
    simpl; try done; lia.
Qed.

(** C7.  Let the queue of a port start with message [m], and let ReadMessage
    be called with a buffer size below the size of [m].  With MAY_DISCARD
    the result is RESOURCE_EXHAUSTED, the size of [m] is written to
    buffer_size and [m] is gone from the queue.  Without it the result and
    the size written are the same, the pipe is as before, and a following
    read with room for [m] returns OK with the size and bytes of [m] and
    takes it from the queue.  The caller's buffer is untouched by the
    failed read.  For every call whatsoever, buffer_size is overwritten
    with the size of the message at the head of the queue when the result
    is OK or RESOURCE_EXHAUSTED and keeps the caller's value otherwise. *)
Theorem C7_ReadMessage_buffer_too_small
    (port : PortIndex) (mp : Pipe) (m : Msg) (rest : list Msg)
    (buffer : list byte) (buffer_size : N) (hs : list N) (hc : N) :
  incoming (get port mp) = m :: rest →
  buffer_size < msg_size m →
  (let r := ReadMessage port buffer buffer_size hs hc true mp in
   result r = MOJO_RESULT_RESOURCE_EXHAUSTED
   ∧ buffer_size_out r = msg_size m
   ∧ buffer_out r = buffer
   ∧ incoming (get port (pipe_out r)) = rest)
  ∧ (let r := ReadMessage port buffer buffer_size hs hc false mp in
     result r = MOJO_RESULT_RESOURCE_EXHAUSTED
     ∧ buffer_size_out r = msg_size m
     ∧ buffer_out r = buffer
     ∧ pipe_out r = mp
     ∧ ∀ buffer' size' hs' hc' flag,
         msg_size m ≤ size' → msg_handle_count m ≤ hc' →
         let r' := ReadMessage port buffer' size' hs' hc' flag (pipe_out r) in
         result r' = MOJO_RESULT_OK
         ∧ buffer_size_out r' = msg_size m
         ∧ take (length (msg_bytes m)) (buffer_out r') = msg_bytes m
         ∧ incoming (get port (pipe_out r')) = rest)
  ∧ (∀ port' buffer' size' hs' hc' flag mp',
       let r := ReadMessage port' buffer' size' hs' hc' flag mp' in
       (result r = MOJO_RESULT_OK ∨ result r = MOJO_RESULT_RESOURCE_EXHAUSTED →
        ∃ m', head (incoming (get port' mp')) = Some m'
              ∧ buffer_size_out r = msg_size m')
       ∧ (result r ≠ MOJO_RESULT_OK → result r ≠ MOJO_RESULT_RESOURCE_EXHAUSTED →
          buffer_size_out r = size')).
Proof.
  intros Hq Hsmall. split; [|split].
  - rewrite (ReadMessage_too_small _ _ _ _ _ _ _ _ _ Hq) by (by left).
    cbn [result buffer_size_out buffer_out pipe_out]. by rewrite get_set.
  - rewrite (ReadMessage_too_small _ _ _ _ _ _ _ _ _ Hq) by (by left).
    cbn [result buffer_size_out buffer_out pipe_out].
    repeat split; try done.
    all: rewrite (ReadMessage_fits _ _ _ _ _ _ _ _ _ Hq) by done;
      cbn [result buffer_size_out buffer_out pipe_out]; try done.
    + by rewrite take_app_length.
    + by rewrite get_set.
  - intros port' buffer' size' hs' hc' flag mp'. cbv zeta.
    destruct (incoming (get port' mp')) as [|m' rest'] eqn:Hq'.
    + rewrite ReadMessage_empty by done. cbn [result buffer_size_out].
      split; [|done]. by destruct (peer_closed _); intros [|].
    + destruct (decide (size' < msg_size m' ∨ hc' < msg_handle_count m')) as [Hs|Hs].
      * rewrite (ReadMessage_too_small _ _ _ _ _ _ _ _ _ Hq') by done.
        cbn [result buffer_size_out head]. split; [eauto|done].
      * rewrite (ReadMessage_fits _ _ _ _ _ _ _ _ _ Hq') by lia.
        cbn [result buffer_size_out head]. split; [eauto|done].
Qed.

(** The discard scenario of the unit test: the int32 901234567 is written
    on port 1 and read on port 0 with a one-byte buffer. *)
Lemma C7_ReadMessage_buffer_too_small_witness :
  let lim := mkLimits 4194304 2147483648 65536 in
  let payload := RoutedRawChannel.store_le 4 901234567 in
  let mp := (WriteMessage lim Port1 (Some payload) 4 None 0 created).2.1 in
  incoming (get Port0 mp) = [mkMsg payload []]
  ∧ 1 < msg_size (mkMsg payload [])
  ∧ (let r := ReadMessage Port0 [x00] 1 [] 0 true mp in
     result r = MOJO_RESULT_RESOURCE_EXHAUSTED
     ∧ buffer_size_out r = 4
     ∧ result (ReadMessage Port0 [x00] 1 [] 0 true (pipe_out r))
       = MOJO_RESULT_NOT_FOUND).
Proof.
  intros lim payload mp.
  assert (Hq : incoming (get Port0 mp) = [mkMsg payload []]) by reflexivity.
  assert (Hsmall : 1 < msg_size (mkMsg payload [])) by reflexivity.
  split; [exact Hq|]. split; [exact Hsmall|].
  destruct (C7_ReadMessage_buffer_too_small Port0 mp (mkMsg payload []) []
              [x00] 1 [] 0 Hq Hsmall) as ((Hres & Hsize & _ & Hrest) & _).
  cbv zeta. split; [exact Hres|]. split; [exact Hsize|].
  rewrite ReadMessage_empty by exact Hrest. reflexivity.
Defined.

(** C8.  WriteMessage from a port whose peer is closed fails with
    FAILED_PRECONDITION and leaves the pipe as it was.  With the peer
    open, it fails with INVALID_ARGUMENT for a null byte pointer with a
    nonzero length and for a null handle pointer with a nonzero count, and
    with RESOURCE_EXHAUSTED for an implausibly large length given with
    non-null bytes; in each case nothing is queued.  A message written
    from a port stays queued on the other port when the writing port is
    closed: a read there, with room for the message at the head of the
    queue, still returns OK, while a write from there now fails. *)
Theorem C8_WriteMessage_failures (lim : Limits) (port : PortIndex) (mp : Pipe) :
  (∀ bytes n handles k,
     peer_closed (get port mp) = true →
     WriteMessage lim port bytes n handles k mp
       = (MOJO_RESULT_FAILED_PRECONDITION, (mp, [])))
  ∧ (∀ n handles k,
       peer_closed (get port mp) = false → n ≠ 0 →
       WriteMessage lim port None n handles k mp
         = (MOJO_RESULT_INVALID_ARGUMENT, (mp, [])))
  ∧ (∀ bs n k,
       peer_closed (get port mp) = false → k ≠ 0 →
       WriteMessage lim port (Some bs) n None k mp
         = (MOJO_RESULT_INVALID_ARGUMENT, (mp, [])))
  ∧ (∀ bs n handles k,
       peer_closed (get port mp) = false →
       (handles = None → k = 0) →
       implausible_num_bytes lim ≤ n →
       WriteMessage lim port (Some bs) n handles k mp
         = (MOJO_RESULT_RESOURCE_EXHAUSTED, (mp, [])))
  ∧ (∀ bs n,
       peer_closed (get port mp) = false →
       n < implausible_num_bytes lim → n ≤ max_num_bytes lim →
       0 < implausible_num_handles lim →
       ∃ mp1 woken1 mp2 woken2,
         WriteMessage lim port (Some bs) n None 0 mp
           = (MOJO_RESULT_OK, (mp1, woken1))
         ∧ Close port mp1 = (mp2, woken2)
         ∧ incoming (get (peer port) mp2)
             = incoming (get (peer port) mp) ++ [mkMsg (take (N.to_nat n) bs) []]
         ∧ (∀ m rest buffer size hs hc flag,
              incoming (get (peer port) mp2) = m :: rest →
              msg_size m ≤ size → msg_handle_count m ≤ hc →
              let r := ReadMessage (peer port) buffer size hs hc flag mp2 in
              result r = MOJO_RESULT_OK
              ∧ take (length (msg_bytes m)) (buffer_out r) = msg_bytes m
              ∧ buffer_size_out r = msg_size m)
         ∧ (∀ bytes' n' handles' k',
              (WriteMessage lim (peer port) bytes' n' handles' k' mp2).1
                = MOJO_RESULT_FAILED_PRECONDITION)).
Proof.
  repeat apply conj.
  - intros bytes n handles k Hclosed. unfold WriteMessage. by rewrite Hclosed.
  - intros n handles k Hopen Hn. unfold WriteMessage. rewrite Hopen.
    destruct (N.eqb_spec n 0); done.
  - intros bs n k Hopen Hk. unfold WriteMessage. rewrite Hopen.
    destruct (N.eqb_spec k 0); done.
  - intros bs n handles k Hopen Hnull Hbig. unfold WriteMessage. rewrite Hopen.
    cbn [is_null andb].
    assert (Hh : is_null handles && negb (k =? 0) = false).
    { destruct handles; [done|]. by rewrite Hnull. }
    rewrite Hh. by destruct (N.leb_spec (implausible_num_bytes lim) n); [|lia].
  - intros bs n Hopen Hplausible Hmax Hhandles. unfold WriteMessage.
    rewrite Hopen. cbn [is_null andb negb N.eqb].
    destruct (N.leb_spec (implausible_num_bytes lim) n); [lia|].
    destruct (N.leb_spec (implausible_num_handles lim) 0); [lia|].
    destruct (N.ltb_spec (max_num_bytes lim) n); [lia|].
    cbn [orb]. unfold enqueue, Close. do 4 eexists.
    split; [reflexivity|]. split; [reflexivity|].
    split; [by destruct port|]. split.
    + intros m rest buffer size hs hc flag Hq Hb Hh.
      rewrite (ReadMessage_fits _ _ _ _ _ _ _ _ _ Hq) by done.
      cbn [result buffer_out buffer_size_out]. by rewrite take_app_length.
    + intros bytes' n' handles' k'. unfold WriteMessage.
      by rewrite get_set.
Qed.

(** The unit test's cases: a null buffer of length 1 and a buffer of length
    UINT32_MAX on a new pipe; then a write from port 0, the closing of
    port 0, a write from port 1 and a read on port 1. *)
Lemma C8_WriteMessage_failures_witness :
  let lim := mkLimits 4194304 2147483648 65536 in
  let payload := RoutedRawChannel.store_le 4 345678901 in
  WriteMessage lim Port0 None 1 None 0 created
    = (MOJO_RESULT_INVALID_ARGUMENT, (created, []))
  ∧ WriteMessage lim Port0 (Some [x00]) 4294967295 None 0 created
    = (MOJO_RESULT_RESOURCE_EXHAUSTED, (created, []))
  ∧ ∃ mp1 woken1 mp2 woken2,
      WriteMessage lim Port0 (Some payload) 4 None 0 created
        = (MOJO_RESULT_OK, (mp1, woken1))
      ∧ Close Port0 mp1 = (mp2, woken2)
      ∧ (WriteMessage lim Port1 (Some payload) 4 None 0 mp2).1
          = MOJO_RESULT_FAILED_PRECONDITION
      ∧ result (ReadMessage Port1 [x00; x00; x00; x00; x00; x00; x00; x00] 8
                            [] 0 false mp2) = MOJO_RESULT_OK
      ∧ take 4 (buffer_out (ReadMessage Port1 [x00; x00; x00; x00; x00; x00; x00; x00] 8
                                        [] 0 false mp2)) = payload.
Proof.
  intros lim payload.
  destruct (C8_WriteMessage_failures lim Port0 created)
    as (_ & Hnull & _ & Hhuge & Hlater).
  split; [exact (Hnull 1 None 0 eq_refl ltac:(done))|].
  split; [exact (Hhuge [x00] 4294967295 None 0 eq_refl (λ _, eq_refl) ltac:(done))|].
  destruct (Hlater payload 4 eq_refl eq_refl ltac:(done) eq_refl)
    as (mp1 & woken1 & mp2 & woken2 & Hwrite & Hclose & Hqueue & Hread & Hfail).
  exists mp1, woken1, mp2, woken2.
  split; [exact Hwrite|]. split; [exact Hclose|]. split; [apply Hfail|].
  destruct (Hread (mkMsg payload []) [] [x00; x00; x00; x00; x00; x00; x00; x00] 8
                  [] 0 false Hqueue ltac:(done) ltac:(done)) as (Hok & Hbytes & _).
  split; [exact Hok|exact Hbytes].
Defined.

(** C9.  AddWaiter returns ALREADY_EXISTS, and leaves the pipe as it was,
    when WRITABLE is requested and the peer is open or READABLE is
    requested and the queue is not empty.  It returns FAILED_PRECONDITION,
    and leaves the pipe as it was, when the peer is closed and either the
    queue is empty or READABLE is not requested.  It returns OK exactly in
    the remaining case, READABLE alone requested on an empty queue with
    the peer open, and then the waiter is added to the waiters of the
    port, with its flags and context, and nothing else changes. *)
Theorem C9_AddWaiter_results
    (port : PortIndex) (w : N) (f : WaitFlags) (ctx : N) (mp : Pipe) :
  ((WRITABLE f = true ∧ peer_closed (get port mp) = false)
     ∨ (READABLE f = true ∧ incoming (get port mp) ≠ []) →
   AddWaiter port w f ctx mp = (MOJO_RESULT_ALREADY_EXISTS, mp))
  ∧ (peer_closed (get port mp) = true →
     incoming (get port mp) = [] ∨ READABLE f = false →
     AddWaiter port w f ctx mp = (MOJO_RESULT_FAILED_PRECONDITION, mp))
  ∧ ((AddWaiter port w f ctx mp).1 = MOJO_RESULT_OK
       ↔ READABLE f = true ∧ WRITABLE f = false
         ∧ incoming (get port mp) = [] ∧ peer_closed (get port mp) = false)
  ∧ ((AddWaiter port w f ctx mp).1 = MOJO_RESULT_OK →
     ∀ i, waiters (get i (AddWaiter port w f ctx mp).2)
            = (if decide (i = port)
               then waiters (get port mp) ++ [mkWaiter w f ctx]
               else waiters (get i mp))
          ∧ incoming (get i (AddWaiter port w f ctx mp).2) = incoming (get i mp)
          ∧ peer_closed (get i (AddWaiter port w f ctx mp).2) = peer_closed (get i mp)
          ∧ self_closed (get i (AddWaiter port w f ctx mp).2) = self_closed (get i mp))
  ∧ ((AddWaiter port w f ctx mp).1 ≠ MOJO_RESULT_OK →
     (AddWaiter port w f ctx mp).2 = mp).
Proof.
  unfold AddWaiter, satisfied, satisfiable.
  destruct f as [r wr]. cbn [READABLE WRITABLE].
  destruct (peer_closed (get port mp)) eqn:Hpeer;
    destruct (decide (incoming (get port mp) = [])) as [Hq|Hq].
  all: rewrite ?(bool_decide_eq_true_2 _ Hq), ?(bool_decide_eq_false_2 _ Hq).
  all: destruct r, wr; cbn [andb orb negb fst snd].
  all: repeat apply conj; try done; try tauto;
    try (intros [[? ?]|[? ?]]; done);
    try (intros _ [?|?]; done);
    try (intros (? & ? & ? & ?); done).
  all: intros _ i; destruct port, i; by case_decide.
Qed.

(** The waits of the unit test on a new pipe: WRITABLE is already
    satisfied, READABLE is armed. *)
Lemma C9_AddWaiter_results_witness :
  AddWaiter Port0 1 (mkFlags false true) 0 created
    = (MOJO_RESULT_ALREADY_EXISTS, created)
  ∧ AddWaiter Port0 1 (mkFlags true true) 0 created
    = (MOJO_RESULT_ALREADY_EXISTS, created)
  ∧ (AddWaiter Port0 1 (mkFlags true false) 1 created).1 = MOJO_RESULT_OK
  ∧ waiters (get Port0 (AddWaiter Port0 1 (mkFlags true false) 1 created).2)
    = [mkWaiter 1 (mkFlags true false) 1].
Proof.
  split; [|split; [|split]].
  - apply (C9_AddWaiter_results Port0 1 (mkFlags false true) 0 created).
    left. split; reflexivity.
  - apply (C9_AddWaiter_results Port0 1 (mkFlags true true) 0 created).
    left. split; reflexivity.
  - apply (C9_AddWaiter_results Port0 1 (mkFlags true false) 1 created).
    repeat split; reflexivity.
  - destruct (C9_AddWaiter_results Port0 1 (mkFlags true false) 1 created)
      as (_ & _ & _ & Hadd & _).
    apply (Hadd eq_refl Port0).
Defined.

End MessagePipeClaims.

(** * Whole sequences of calls on a RoutedRawChannel *)

Section RoutedRawChannelRuns.
Import RoutedRawChannel.

(** A sequence that returns is a first call that returns followed by a
    sequence that returns, and the traces add up. *)
Lemma run_cons_Done c cs s s' t :
  run (c :: cs) s = Done (s', t) →
  ∃ s1 t1 t2, call c s = Done (s1, t1)
              ∧ run cs s1 = Done (s', t2)
              ∧ t = t1 ++ t2.
Proof.
  cbn [run]. destruct (call c s) as [[s1 t1]| |] eqn:Hcall; [|done..].
  destruct (existsb is_delete_this t1).
  - destruct cs; [|done]. intros [= <- <-].
    exists s1, t1, []. by rewrite app_nil_r.
  - destruct (run cs s1) as [[s2 t2]| |] eqn:Hrest; [|done..].
    intros [= <- <-]. by exists s1, t1, t2.
Qed.

(** A property of states that every call keeps is kept by every
    sequence of calls. *)
Lemma run_invariant (I : State → Prop) :
  (∀ c s s' t, I s → call c s = Done (s', t) → I s') →
  ∀ cs s s' t, I s → run cs s = Done (s', t) → I s'.
Proof.
  intros Hstep cs. induction cs as [|c cs IH]; intros s s' t HI Hrun.
  - by injection Hrun as <- <-.
  - apply run_cons_Done in Hrun as (s1 & t1 & t2 & Hcall & Hrest & _).
    eapply IH; [|exact Hrest]. eapply Hstep; eauto.
Qed.

Lemma call_well_buffered c s s' t :
  well_buffered s → call c s = Done (s', t) → well_buffered s'.
Proof.
  intros [Hzero Hpend] Hcall. destruct c as [p d|p d|v h|e]; cbn [call] in Hcall.
  - destruct (AddRoute_inv _ _ _ _ _ Hcall) as [Hp Hfree].
    rewrite AddRoute_Done in Hcall by done. injection Hcall as <- <-.
    split; cbn [routes_ pending_messages_].
    + by rewrite lookup_insert_ne.
    + apply Forall_forall. intros pm [Hother Hin]%list_elem_of_filter.
      rewrite Forall_forall in Hpend. destruct (Hpend pm Hin) as [Hnz Hunb].
      split; [done|]. rewrite lookup_insert_ne; [done|].
      intros Heq. apply Hother. by unfold for_route.
  - pose proof (RemoveRoute_inv _ _ _ _ _ Hcall) as Hp.
    rewrite RemoveRoute_Done in Hcall by done. injection Hcall as <- <-.
    split; cbn [routes_ pending_messages_].
    + apply lookup_delete_None. by right.
    + eapply Forall_impl; [exact Hpend|]. intros pm [Hnz Hunb].
      split; [done|]. apply lookup_delete_None. by right.
  - unfold OnReadMessage in Hcall. cbv zeta in Hcall.
    destruct (N.eqb_spec (route_id v) kInternalRoutingId) as [Hv|Hv].
    + assert (Hsame : routes_ s' = routes_ s ∧ pending_messages_ s' = pending_messages_ s).
      { repeat case_match; injection Hcall as <- <-; done. }
      destruct Hsame as [Hr Hq]. split; rewrite Hr, ?Hq; done.
    + destruct (routes_ s !! route_id v) eqn:Hr; injection Hcall as <- <-.
      * by split.
      * split; [done|]. cbn [routes_ pending_messages_].
        apply Forall_app. split; [done|]. by repeat constructor.
  - pose proof (OnError_inv _ _ _ _ Hcall) as Hup.
    rewrite OnError_Done in Hcall by done. injection Hcall as <- <-. by split.
Qed.

(** Filtering twice. *)
Lemma filter_none {A} (P : A → Prop) `{!∀ x, Decision (P x)} (l : list A) :
  Forall (λ x, ¬ P x) l → filter P l = [].
Proof.
  induction 1 as [|x l Hx _ IH]; [done|]. by rewrite filter_cons_False.
Qed.

Lemma filter_filter_absurd {A} (P Q : A → Prop)
    `{!∀ x, Decision (P x)} `{!∀ x, Decision (Q x)} (l : list A) :
  (∀ x, P x → Q x → False) → filter P (filter Q l) = [].
Proof.
  intros Habs. apply filter_none, Forall_forall.
  intros x [HQ _]%list_elem_of_filter HP. eauto.
Qed.

Lemma filter_filter_implied {A} (P Q : A → Prop)
    `{!∀ x, Decision (P x)} `{!∀ x, Decision (Q x)} (l : list A) :
  (∀ x, P x → Q x) → filter P (filter Q l) = filter P l.
Proof.
  intros Himp. induction l as [|x l IH]; [done|].
  rewrite (filter_cons Q). destruct (decide (Q x)) as [HQ|HQ].
  - rewrite !filter_cons. case_decide; by rewrite IH.
  - rewrite IH. rewrite filter_cons_False; [done|]. intros HP. eauto.
Qed.

(** What a trace of deliveries to [d] reads on route [p]. *)
Lemma reads_of_deliver p d l :
  reads_of p (deliver d <$> l) = (λ pm, (d, pm)) <$> filter (for_route p) l.
Proof.
  induction l as [|[v h] l IH]; [done|].
  unfold reads_of in *. cbn [fmap list_fmap omap list_omap deliver message handles].
  rewrite filter_cons.
  destruct (decide (route_id v = p)) as [Hv|Hv],
           (decide (for_route p (mkPending v h))) as [Hf|Hf];
    cbn [fmap list_fmap]; rewrite ?IH; try done; by destruct Hf.
Qed.

Lemma reads_of_deliver_messages p d l :
  (reads_of p (deliver d <$> l)).*2 = filter (for_route p) l.
Proof.
  rewrite reads_of_deliver. induction (filter (for_route p) l) as [|pm k IH]; [done|].
  cbn [fmap list_fmap snd]. by f_equal.
Qed.

(** A trace without reads reads nothing. *)
Lemma reads_of_none p t :
  Forall (λ e, ∀ d v h, e ≠ PipeOnReadMessage d v h) t → reads_of p t = [].
Proof.
  induction 1 as [|e t He _ IH]; [done|].
  unfold reads_of in *. cbn [omap list_omap]. rewrite IH.
  destruct e; try done. by destruct (He pipe view platform_handles).
Qed.

Lemma reads_of_app p t1 t2 : reads_of p (t1 ++ t2) = reads_of p t1 ++ reads_of p t2.
Proof. apply omap_app. Qed.

Lemma arrivals_of_cons p c cs :
  arrivals_of p (c :: cs) = arrivals_of p [c] ++ arrivals_of p cs.
Proof.
  unfold arrivals_of. cbn [omap list_omap].
  destruct c as [| |v h|]; try done. by case_decide.
Qed.

(** Every dispatcher call that a call makes is on a dispatcher that is
    bound when the call returns. *)
Lemma call_on_bound c s s' t :
  call c s = Done (s', t) → Forall (on_bound s') t.
Proof.
  intros Hcall. destruct c as [p d|p d|v h|e]; cbn [call] in Hcall.
  - destruct (AddRoute_inv _ _ _ _ _ Hcall) as [Hp Hfree].
    rewrite AddRoute_Done in Hcall by done. injection Hcall as <- <-.
    apply Forall_app. split.
    + apply Forall_fmap, Forall_forall. intros pm [Hpm _]%list_elem_of_filter.
      unfold for_route in Hpm. cbn [deliver on_bound compose routes_].
      rewrite Hpm. split; [done|apply lookup_insert_eq].
    + case_decide; repeat constructor. exists p. apply lookup_insert_eq.
  - pose proof (RemoveRoute_inv _ _ _ _ _ Hcall) as Hp.
    rewrite RemoveRoute_Done in Hcall by done. injection Hcall as <- <-.
    apply Forall_app. split.
    + case_decide; [constructor|]. destruct (channel_ s); by repeat constructor.
    + destruct (negb _ && _); by repeat constructor.
  - unfold OnReadMessage in Hcall. cbv zeta in Hcall.
    destruct (N.eqb_spec (route_id v) kInternalRoutingId) as [Hv|Hv].
    + repeat case_match; injection Hcall as <- <-; repeat constructor.
      cbn [on_bound routes_]. eauto.
    + destruct (routes_ s !! route_id v) eqn:Hr; injection Hcall as <- <-;
        by repeat constructor.
  - pose proof (OnError_inv _ _ _ _ Hcall) as Hup.
    rewrite OnError_Done in Hcall by done. injection Hcall as <- <-.
    constructor; [done|]. case_bool_decide; [by repeat constructor|].
    unfold notify_routes. apply Forall_fmap, Forall_forall.
    intros [q x] Hin%elem_of_map_to_list. cbn. eauto.
Qed.

(** One call, seen from a user route [p]: what is read on [p], followed
    by what is left buffered for [p], is what was buffered for [p]
    followed by what the call brought in for [p]. *)
Lemma call_fifo p c s s' t :
  well_buffered s → p ≠ kInternalRoutingId →
  call c s = Done (s', t) →
  (reads_of p t).*2 ++ filter (for_route p) (pending_messages_ s')
  = filter (for_route p) (pending_messages_ s) ++ arrivals_of p [c].
Proof.
  intros [Hzero Hpend] Hp Hcall.
  destruct c as [q d|q d|v h|e]; cbn [call] in Hcall.
  - destruct (AddRoute_inv _ _ _ _ _ Hcall) as [Hq Hfree].
    rewrite AddRoute_Done in Hcall by done. injection Hcall as <- <-.
    cbn [pending_messages_ arrivals_of omap list_omap]. rewrite app_nil_r.
    rewrite reads_of_app, fmap_app, reads_of_deliver_messages.
    rewrite (reads_of_none p (if decide _ then _ else _))
      by (case_decide; by repeat constructor).
    cbn [fmap list_fmap]. rewrite app_nil_r.
    destruct (decide (q = p)) as [->|Hqp].
    + rewrite filter_filter_implied by done.
      rewrite (filter_filter_absurd (for_route p)) by tauto. apply app_nil_r.
    + rewrite (filter_filter_absurd (for_route p) (for_route q))
        by (unfold for_route; congruence).
      cbn [app]. apply filter_filter_implied. unfold for_route. congruence.
  - pose proof (RemoveRoute_inv _ _ _ _ _ Hcall) as Hq.
    rewrite RemoveRoute_Done in Hcall by done. injection Hcall as <- <-.
    cbn [pending_messages_ arrivals_of omap list_omap]. rewrite app_nil_r.
    rewrite reads_of_none; [done|]. apply Forall_app. split.
    + case_decide; [constructor|]. destruct (channel_ s); by repeat constructor.
    + destruct (negb _ && _); by repeat constructor.
  - unfold OnReadMessage in Hcall. cbv zeta in Hcall.
    cbn [arrivals_of omap list_omap].
    destruct (N.eqb_spec (route_id v) kInternalRoutingId) as [Hv|Hv].
    + rewrite decide_False by congruence. rewrite app_nil_r.
      assert (Hsame : pending_messages_ s' = pending_messages_ s ∧ reads_of p t = []).
      { repeat case_match; injection Hcall as <- <-; done. }
      destruct Hsame as [-> ->]. done.
    + destruct (routes_ s !! route_id v) as [d|] eqn:Hr; injection Hcall as <- <-.
      * unfold reads_of. cbn [omap list_omap].
        case_decide as Hpv; cbn [fmap list_fmap snd app]; [|by rewrite app_nil_r].
        assert (Hempty : filter (for_route p) (pending_messages_ s) = []).
        { apply filter_none. eapply Forall_impl; [exact Hpend|].
          intros pm [_ Hunb] Hpm. unfold for_route in Hpm.
          rewrite Hpm, <- Hpv, Hr in Hunb. done. }
        by rewrite Hempty.
      * cbn [pending_messages_ reads_of omap list_omap fmap list_fmap app].
        rewrite filter_app, filter_cons, filter_nil.
        destruct (decide (route_id v = p)) as [Hpv|Hpv],
                 (decide (for_route p (mkPending v h))) as [Hf|Hf];
          try done; by destruct Hf.
  - pose proof (OnError_inv _ _ _ _ Hcall) as Hup.
    rewrite OnError_Done in Hcall by done. injection Hcall as <- <-.
    cbn [pending_messages_ arrivals_of omap list_omap]. rewrite app_nil_r.
    rewrite reads_of_none; [done|]. constructor; [done|].
    case_bool_decide; [by repeat constructor|].
    unfold notify_routes. apply Forall_fmap, Forall_true. by intros kv.
Qed.


(** One call that is not an AddRoute for the unbound user route [p]:
    nothing is read on [p], [p] stays unbound, and what the call brings
    in for [p] goes to the end of the buffer. *)
Lemma call_unbound p c s s' t :
  p ≠ kInternalRoutingId → routes_ s !! p = None → ¬ binds p c →
  call c s = Done (s', t) →
  reads_of p t = []
  ∧ routes_ s' !! p = None
  ∧ filter (for_route p) (pending_messages_ s')
    = filter (for_route p) (pending_messages_ s) ++ arrivals_of p [c].
Proof.
  intros Hp Hfree Hc Hcall.
  destruct c as [q d|q d|v h|e]; cbn [call binds] in Hcall, Hc.
  - destruct (AddRoute_inv _ _ _ _ _ Hcall) as [Hq Hqfree].
    rewrite AddRoute_Done in Hcall by done. injection Hcall as <- <-.
    cbn [routes_ pending_messages_ arrivals_of omap list_omap].
    rewrite app_nil_r, lookup_insert_ne by done. split; [|split; [done|]].
    + rewrite reads_of_app, reads_of_deliver.
      rewrite (filter_filter_absurd (for_route p) (for_route q))
        by (unfold for_route; congruence).
      rewrite reads_of_none; [done|]. case_decide; by repeat constructor.
    + apply filter_filter_implied. unfold for_route. congruence.
  - pose proof (RemoveRoute_inv _ _ _ _ _ Hcall) as Hq.
    rewrite RemoveRoute_Done in Hcall by done. injection Hcall as <- <-.
    cbn [routes_ pending_messages_ arrivals_of omap list_omap].
    rewrite app_nil_r. split; [|split; [|done]].
    + apply reads_of_none, Forall_app. split.
      * case_decide; [constructor|]. destruct (channel_ s); by repeat constructor.
      * destruct (negb _ && _); by repeat constructor.
    + apply lookup_delete_None. by right.
  - unfold OnReadMessage in Hcall. cbv zeta in Hcall.
    cbn [arrivals_of omap list_omap].
    destruct (N.eqb_spec (route_id v) kInternalRoutingId) as [Hv|Hv].
    + rewrite decide_False by congruence. rewrite app_nil_r.
      assert (Hsame : pending_messages_ s' = pending_messages_ s
                      ∧ routes_ s' = routes_ s ∧ reads_of p t = []).
      { repeat case_match; injection Hcall as <- <-; done. }
      destruct Hsame as (-> & -> & ->). done.
    + destruct (routes_ s !! route_id v) as [d|] eqn:Hr; injection Hcall as <- <-.
      * assert (Hpv : route_id v ≠ p) by congruence.
        unfold reads_of. cbn [omap list_omap].
        rewrite !decide_False by done. by rewrite app_nil_r.
      * cbn [routes_ pending_messages_ reads_of omap list_omap].
        split; [done|]. split; [done|].
        rewrite filter_app, filter_cons, filter_nil.
        destruct (decide (route_id v = p)) as [Hpv|Hpv],
                 (decide (for_route p (mkPending v h))) as [Hf|Hf];
          try done; by destruct Hf.
  - pose proof (OnError_inv _ _ _ _ Hcall) as Hup.
    rewrite OnError_Done in Hcall by done. injection Hcall as <- <-.
    cbn [routes_ pending_messages_ arrivals_of omap list_omap].
    rewrite app_nil_r. split; [|done].
    apply reads_of_none. constructor; [done|].
    case_bool_decide; [by repeat constructor|].
    unfold notify_routes. apply Forall_fmap, Forall_true. by intros kv.
Qed.

(** One inbound frame while [p] is bound to [d] and to nothing else: [d]
    hears READ_SHUTDOWN exactly when the frame is a ROUTE_CLOSED for [p]
    and [p] is not yet recorded as closed. *)
Lemma OnReadMessage_bound_errors p d v h s :
  routes_ s !! p = Some d →
  (∀ q, routes_ s !! q = Some d → q = p) →
  ∃ s' t, OnReadMessage v h s = Done (s', t)
    ∧ routes_ s' = routes_ s
    ∧ errors_to d t = (if decide (is_route_closed p v ∧ p ∉ close_routes_ s)
                       then [ERROR_READ_SHUTDOWN] else [])
    ∧ (p ∈ close_routes_ s' ↔ p ∈ close_routes_ s ∨ is_route_closed p v).
Proof.
  intros Hp Honly.
  destruct (decide (is_route_closed p v)) as [Hrc|Hrc].
  - destruct (decide (p ∈ close_routes_ s)) as [Hin|Hin].
    + destruct (OnReadMessage_malformed v h s) as [msg Hcall].
      { destruct Hrc as (Hr & _ & _ & Hl). split; [done|]. right; right.
        by rewrite Hl. }
      exists s, [NotReached msg]. rewrite decide_False by tauto.
      repeat split; try done; tauto.
    + rewrite (OnReadMessage_route_closed p) by done. rewrite Hp.
      do 2 eexists. split; [done|]. cbn [routes_ close_routes_].
      split; [done|]. rewrite decide_True by done. split.
      * unfold errors_to. cbn [omap list_omap]. by rewrite decide_True.
      * rewrite elem_of_union, elem_of_singleton. tauto.
  - rewrite decide_False by tauto.
    unfold OnReadMessage. cbv zeta.
    destruct (N.eqb_spec (route_id v) kInternalRoutingId) as [Hv|Hv].
    + destruct (N.eqb_spec (num_bytes v) internal_message_size) as [Hn|Hn];
        cbn [negb]; [|do 2 eexists; repeat split; try done; tauto].
      destruct (N.eqb_spec (Byte.to_N (nth 0 (bytes v) x00)) ROUTE_CLOSED)
        as [Hb|Hb]; cbn [negb]; [|do 2 eexists; repeat split; try done; tauto].
      case_decide as Hq; [do 2 eexists; repeat split; try done; tauto|].
      assert (Hqp : load_le 8 (drop 1 (bytes v)) ≠ p).
      { intros Heq. apply Hrc. by repeat split. }
      destruct (routes_ s !! load_le 8 (drop 1 (bytes v))) as [d'|] eqn:Hr;
        do 2 eexists; (split; [done|]); cbn [routes_ close_routes_];
        (split; [done|]); split.
      * unfold errors_to. cbn [omap list_omap].
        rewrite decide_False; [done|]. intros ->. by apply Hqp, Honly.
      * rewrite elem_of_union, elem_of_singleton. intuition congruence.
      * done.
      * rewrite elem_of_union, elem_of_singleton. intuition congruence.
    + destruct (routes_ s !! route_id v) eqn:Hr;
        do 2 eexists; repeat split; try done; tauto.
Qed.

Lemma received_bound_errors p d frames : ∀ s,
  routes_ s !! p = Some d →
  (∀ q, routes_ s !! q = Some d → q = p) →
  ∃ s' t, run (received frames) s = Done (s', t)
    ∧ routes_ s' = routes_ s
    ∧ errors_to d t =
        (if decide ((p ∉ close_routes_ s)
                    ∧ Exists (λ f : Frame, is_route_closed p f.1) frames)
         then [ERROR_READ_SHUTDOWN] else []).
Proof.
  induction frames as [|[v h] frames IH]; intros s Hp Honly.
  - exists s, []. rewrite decide_False; [done|]. rewrite Exists_nil. tauto.
  - destruct (OnReadMessage_Done v h s) as (s1 & t1 & Hcall & _ & Hroutes & Hdel).
    destruct (OnReadMessage_bound_errors p d v h s Hp Honly)
      as (s1' & t1' & Hcall' & _ & Herr & Hclosed).
    rewrite Hcall in Hcall'. injection Hcall' as <- <-.
    destruct (IH s1) as (s' & t & Hrun & Hroutes' & Herr');
      [by rewrite Hroutes|by rewrite Hroutes|].
    exists s', (t1 ++ t). cbn [received fmap list_fmap run call fst snd].
    fold (received frames). rewrite Hcall, Hdel, Hrun.
    split; [done|]. split; [congruence|].
    unfold errors_to in *. rewrite omap_app, Herr, Herr'.
    pose proof (Exists_cons (λ f : Frame, is_route_closed p f.1) (v, h) frames) as HE.
    cbn [fst] in HE.
    repeat case_decide; try done; tauto.
Qed.

(** A call that returns without destroying the object, followed by a
    sequence that returns. *)
Lemma run_cons_step c cs s s1 t1 s' t2 :
  call c s = Done (s1, t1) →
  Forall (λ e, e ≠ DeleteThis) t1 →
  run cs s1 = Done (s', t2) →
  run (c :: cs) s = Done (s', t1 ++ t2).
Proof.
  intros Hcall Hquiet Hrest. cbn [run]. rewrite Hcall.
  assert (Hdel : existsb is_delete_this t1 = false).
  { clear -Hquiet.
    induction Hquiet as [|e l He _ IH]; [done|]. cbn [existsb]. rewrite IH.
    by destruct e. }
  by rewrite Hdel, Hrest.
Qed.

Lemma errors_to_app d t1 t2 : errors_to d (t1 ++ t2) = errors_to d t1 ++ errors_to d t2.
Proof. apply omap_app. Qed.

Lemma errors_to_deliver d d' l : errors_to d (deliver d' <$> l) = [].
Proof. induction l as [|pm l IH]; [done|exact IH]. Qed.

Lemma written_app t1 t2 : written (t1 ++ t2) = written t1 ++ written t2.
Proof. apply omap_app. Qed.

(** A trace without writes writes nothing. *)
Lemma written_none t :
  Forall (λ e, ∀ m, e ≠ ChannelWriteMessage m) t → written t = [].
Proof.
  induction 1 as [|e t He _ IH]; [done|].
  unfold written in *. cbn [omap list_omap]. rewrite IH.
  destruct e; try done. by destruct (He m).
Qed.

(** One call on an object whose raw channel is gone. *)
Lemma call_channel_gone c s s' t :
  channel_ s = false →
  call c s = Done (s', t) →
  channel_ s' = false
  ∧ ¬ is_error_call c
  ∧ Forall (λ e, e ≠ DeleteThis ∧ e ≠ ChannelShutdown
                 ∧ ∀ m, e ≠ ChannelWriteMessage m) t.
Proof.
  intros Hgone Hcall. destruct c as [p d|p d|v h|e]; cbn [call] in Hcall.
  - destruct (AddRoute_inv _ _ _ _ _ Hcall) as [Hp Hfree].
    rewrite AddRoute_Done in Hcall by done. injection Hcall as <- <-.
    split; [done|]. split; [by intros []|]. apply Forall_app. split.
    + apply Forall_fmap, Forall_true. by intros pm.
    + case_decide; by repeat constructor.
  - pose proof (RemoveRoute_inv _ _ _ _ _ Hcall) as Hp.
    rewrite RemoveRoute_Done in Hcall by done. injection Hcall as <- <-.
    split; [done|]. split; [by intros []|]. rewrite Hgone. apply Forall_app. split.
    + case_decide; constructor.
    + destruct (negb _ && _); by repeat constructor.
  - destruct (OnReadMessage_Done v h s) as (s1 & t1 & Hcall' & Hch & _ & _).
    rewrite Hcall in Hcall'. injection Hcall' as <- <-.
    split; [congruence|]. split; [by intros []|].
    unfold OnReadMessage in Hcall.
    repeat case_match; injection Hcall as <- <-; by repeat constructor.
  - apply OnError_inv in Hcall. congruence.
Qed.

(** A call that does not bind [d] leaves [d] bound to nothing if it was
    so. *)
Lemma call_unused d c s s' t :
  unused d s → ¬ names d c → call c s = Done (s', t) → unused d s'.
Proof.
  intros Hunused Hc Hcall q. destruct c as [p d'|p d'|v h|e]; cbn [call names] in *.
  - destruct (AddRoute_inv _ _ _ _ _ Hcall) as [Hp Hfree].
    rewrite AddRoute_Done in Hcall by done. injection Hcall as <- <-.
    cbn [routes_]. destruct (decide (q = p)) as [->|Hq].
    + rewrite lookup_insert_eq. congruence.
    + rewrite lookup_insert_ne by done. apply Hunused.
  - pose proof (RemoveRoute_inv _ _ _ _ _ Hcall) as Hp.
    rewrite RemoveRoute_Done in Hcall by done. injection Hcall as <- <-.
    cbn [routes_]. intros [_ Hq]%lookup_delete_Some. by apply (Hunused q).
  - destruct (OnReadMessage_Done v h s) as (s1 & t1 & Hcall' & _ & Hr & _).
    rewrite Hcall in Hcall'. injection Hcall' as <- <-. rewrite Hr. apply Hunused.
  - pose proof (OnError_inv _ _ _ _ Hcall) as Hup.
    rewrite OnError_Done in Hcall by done. injection Hcall as <- <-. apply Hunused.
Qed.

(** A dispatcher that is bound to nothing is not among those a trace of
    calls on bound dispatchers calls. *)
Lemma on_bound_unused d s t :
  unused d s → Forall (on_bound s) t → Forall (λ e, ¬ calls d e) t.
Proof.
  intros Hunused Hb. eapply Forall_impl; [exact Hb|]. intros e He Hd.
  destruct e as [d' v h|d' err| | | | |]; cbn [on_bound calls] in *; try done.
  - subst d'. destruct He as [_ He]. by apply (Hunused (route_id v)).
  - subst d'. destruct He as [q He]. by apply (Hunused q).
Qed.

End RoutedRawChannelRuns.

(** * What a RoutedRawChannel keeps, delivers and sends *)

Section RoutedRawChannelExtras.
Import RoutedRawChannel.

(** X1.  A new RoutedRawChannel binds no dispatcher to the internal route
    0 and buffers nothing, and every call that returns keeps it so: after
    any sequence of AddRoute, RemoveRoute, OnReadMessage and OnError calls
    the internal route is unbound, no buffered message is for the
    internal route, and no buffered message is for a route that is
    bound. *)
Theorem X1_no_message_buffered_for_a_bound_route :
  well_buffered initial
  ∧ ∀ cs s s' t,
      well_buffered s → run cs s = Done (s', t) → well_buffered s'.
Proof.
  split.
  - split; [done|constructor].
  - apply run_invariant. intros c s s' t. apply call_well_buffered.
Qed.

Lemma X1_no_message_buffered_for_a_bound_route_witness :
  let data := mkView MESSAGE 7 [x01] in
  ∃ s' t,
    run [CallOnReadMessage data []; CallAddRoute 7 100; CallOnReadMessage data [];
         CallRemoveRoute 7 100; CallOnReadMessage data []] initial = Done (s', t)
    ∧ pending_messages_ s' = [mkPending data []]
    ∧ well_buffered s'.
Proof.
  intros data. eexists _, _.
  assert (Hrun : run [CallOnReadMessage data []; CallAddRoute 7 100;
                      CallOnReadMessage data []; CallRemoveRoute 7 100;
                      CallOnReadMessage data []] initial
                 = Done (mkState true ∅ [mkPending data []] ∅,
                         [PipeOnReadMessage 100 data []; PipeOnReadMessage 100 data [];
                          ChannelWriteMessage (route_closed_message 7)]))
    by (vm_compute; reflexivity).
  split; [exact Hrun|]. split; [reflexivity|].
  destruct X1_no_message_buffered_for_a_bound_route as [Hinit Hkeep].
  exact (Hkeep _ _ _ _ Hinit Hrun).
Defined.

(** X2.  Whatever call returns, each call it made on a dispatcher was on
    a dispatcher that is bound when the call returns: a message is handed
    only to the dispatcher bound to the route of that message, which is
    never the internal route 0, and an error only to a dispatcher bound
    to some route. *)
Theorem X2_only_bound_dispatchers_are_called
    (c : Call) (s s' : State) (t : list Event) :
  call c s = Done (s', t) →
  Forall (on_bound s') t.
Proof. apply call_on_bound. Qed.

Lemma X2_only_bound_dispatchers_are_called_witness :
  let s := mkState true {[3 := 30; 7 := 70]} [] ∅ in
  call (CallOnReadMessage (route_closed_message 7) []) s
    = Done (mkState true {[3 := 30; 7 := 70]} [] {[7]},
            [PipeOnError 70 ERROR_READ_SHUTDOWN])
  ∧ Forall (on_bound (mkState true {[3 := 30; 7 := 70]} [] {[7]}))
           [PipeOnError 70 ERROR_READ_SHUTDOWN].
Proof.
  intros s.
  assert (Hcall : call (CallOnReadMessage (route_closed_message 7) []) s
                  = Done (mkState true {[3 := 30; 7 := 70]} [] {[7]},
                          [PipeOnError 70 ERROR_READ_SHUTDOWN]))
    by (vm_compute; reflexivity).
  split; [exact Hcall|].
  exact (X2_only_bound_dispatchers_are_called _ _ _ _ Hcall).
Defined.

(** X3.  While a user route [p] is not bound, that is from a RemoveRoute
    (or from the start) until the next AddRoute for [p], no call hands a
    message of route [p] to any dispatcher, whatever else is called in
    between; the frames that arrive for [p] are all added to the
    buffered messages of [p], in the order of their arrival, and [p]
    stays unbound. *)
Theorem X3_unbound_route_is_buffered_not_delivered
    (p : N) (cs : list Call) (s s' : State) (t : list Event) :
  p ≠ kInternalRoutingId →
  routes_ s !! p = None →
  Forall (λ c, ¬ binds p c) cs →
  run cs s = Done (s', t) →
  reads_of p t = []
  ∧ routes_ s' !! p = None
  ∧ filter (for_route p) (pending_messages_ s')
    = filter (for_route p) (pending_messages_ s) ++ arrivals_of p cs.
Proof.
  intros Hp. revert s t. induction cs as [|c cs IH]; intros s t Hfree Hcs Hrun.
  - injection Hrun as <- <-. by rewrite app_nil_r.
  - apply run_cons_Done in Hrun as (s1 & t1 & t2 & Hcall & Hrest & ->).
    apply Forall_cons in Hcs as [Hc Hcs].
    destruct (call_unbound p c s s1 t1 Hp Hfree Hc Hcall) as (Hr1 & Hf1 & Hq1).
    destruct (IH s1 t2 Hf1 Hcs Hrest) as (Hr2 & Hf2 & Hq2).
    split; [by rewrite reads_of_app, Hr1, Hr2|]. split; [done|].
    by rewrite Hq2, Hq1, (arrivals_of_cons p c cs), <- app_assoc.
Qed.

Lemma X3_unbound_route_is_buffered_not_delivered_witness :
  let F1 := mkView MESSAGE 7 [x01] in
  let F2 := mkView MESSAGE 7 [x02] in
  let G := mkView MESSAGE 3 [x03] in
  let s := mkState true {[3 := 30]} [] ∅ in
  let cs := [CallOnReadMessage F1 [11]; CallOnReadMessage G [];
             CallRemoveRoute 3 30; CallOnReadMessage F2 []] in
  7 ≠ kInternalRoutingId
  ∧ routes_ s !! 7 = None
  ∧ ∃ s' t,
      run cs s = Done (s', t)
      ∧ reads_of 7 t = []
      ∧ filter (for_route 7) (pending_messages_ s')
        = [mkPending F1 [11]; mkPending F2 []].
Proof.
  intros F1 F2 G s cs. split; [done|]. split; [reflexivity|].
  assert (Hrun : run cs s
                 = Done (mkState true ∅ [mkPending F1 [11]; mkPending F2 []] ∅,
                         [PipeOnReadMessage 30 G [];
                          ChannelWriteMessage (route_closed_message 3)]))
    by (vm_compute; reflexivity).
  eexists _, _. split; [exact Hrun|].
  destruct (X3_unbound_route_is_buffered_not_delivered 7 cs s _ _
              ltac:(done) eq_refl ltac:(repeat constructor; by intros H) Hrun)
    as (Hquiet & _ & Hkept).
  split; [exact Hquiet|exact Hkept].
Defined.

(** X4.  Per-route FIFO.  Start from a state in which no buffered message
    is for a bound route (a new object is such a state) and make any
    sequence of calls that returns.  For every user route [p], the
    messages handed to dispatchers on route [p], in the order of the
    calls, followed by the messages still buffered for [p], are exactly
    the messages buffered for [p] at the start followed by the frames
    that arrived for [p], in their order of arrival, each with its
    platform handles: nothing is lost, duplicated or reordered, whether
    it arrived before or after the route was bound. *)
Theorem X4_per_route_fifo
    (p : N) (cs : list Call) (s s' : State) (t : list Event) :
  well_buffered s →
  p ≠ kInternalRoutingId →
  run cs s = Done (s', t) →
  (reads_of p t).*2 ++ filter (for_route p) (pending_messages_ s')
  = filter (for_route p) (pending_messages_ s) ++ arrivals_of p cs.
Proof.
  intros Hwb Hp. revert s t Hwb. induction cs as [|c cs IH]; intros s t Hwb Hrun.
  - injection Hrun as <- <-. by rewrite app_nil_r.
  - apply run_cons_Done in Hrun as (s1 & t1 & t2 & Hcall & Hrest & ->).
    pose proof (call_fifo p c s s1 t1 Hwb Hp Hcall) as H1.
    pose proof (IH s1 t2 (call_well_buffered _ _ _ _ Hwb Hcall) Hrest) as H2.
    rewrite reads_of_app, fmap_app, <- app_assoc, H2, app_assoc, H1.
    by rewrite (arrivals_of_cons p c cs), <- app_assoc.
Qed.

(** Frames for route 7 arrive before the route is bound, while it is
    bound, and after it is removed; one frame for route 3 comes in
    between. *)
Lemma X4_per_route_fifo_witness :
  let F1 := mkView MESSAGE 7 [x01] in
  let F2 := mkView MESSAGE 7 [x02] in
  let F3 := mkView MESSAGE 7 [x03] in
  let F4 := mkView MESSAGE 7 [x04] in
  let G := mkView MESSAGE 3 [x09] in
  let cs := [CallOnReadMessage F1 [11]; CallOnReadMessage F2 [];
             CallOnReadMessage G []; CallAddRoute 7 70;
             CallOnReadMessage F3 [12]; CallRemoveRoute 7 70;
             CallOnReadMessage F4 []] in
  well_buffered initial
  ∧ 7 ≠ kInternalRoutingId
  ∧ ∃ s' t,
      run cs initial = Done (s', t)
      ∧ reads_of 7 t = [(70, mkPending F1 [11]); (70, mkPending F2 []);
                        (70, mkPending F3 [12])]
      ∧ filter (for_route 7) (pending_messages_ s') = [mkPending F4 []]
      ∧ (reads_of 7 t).*2 ++ filter (for_route 7) (pending_messages_ s')
        = [mkPending F1 [11]; mkPending F2 []; mkPending F3 [12]; mkPending F4 []].
Proof.
  intros F1 F2 F3 F4 G cs.
  assert (Hwb : well_buffered initial) by (split; [done|constructor]).
  split; [exact Hwb|]. split; [done|].
  assert (Hrun : run cs initial
                 = Done (mkState true ∅ [mkPending G []; mkPending F4 []] ∅,
                         [PipeOnReadMessage 70 F1 [11]; PipeOnReadMessage 70 F2 [];
                          PipeOnReadMessage 70 F3 [12];
                          ChannelWriteMessage (route_closed_message 7)]))
    by (vm_compute; reflexivity).
  eexists _, _. split; [exact Hrun|]. split; [reflexivity|]. split; [reflexivity|].
  exact (X4_per_route_fifo 7 cs initial _ _ Hwb ltac:(done) Hrun).
Defined.

(** X5.  One binding hears of the peer's close exactly once.  Bind the
    unbound user route [p] to a dispatcher [d] that is bound to nothing
    else, and let any frames arrive afterwards.  Over the whole sequence
    [d] receives OnError(ERROR_READ_SHUTDOWN) exactly once if a
    ROUTE_CLOSED for [p] had been recorded before the bind or arrives
    after it, however many such frames arrive, and receives no error at
    all otherwise. *)
Theorem X5_one_READ_SHUTDOWN_per_binding
    (p d : N) (s : State) (frames : list Frame) :
  p ≠ kInternalRoutingId →
  routes_ s !! p = None →
  unused d s →
  ∃ s' t,
    run (CallAddRoute p d :: received frames) s = Done (s', t)
    ∧ routes_ s' !! p = Some d
    ∧ errors_to d t =
        (if decide (p ∈ close_routes_ s
                    ∨ Exists (λ f : Frame, is_route_closed p f.1) frames)
         then [ERROR_READ_SHUTDOWN] else []).
Proof.
  intros Hp Hfree Hunused.
  pose proof (AddRoute_Done p d s Hp Hfree) as Hadd.
  set (s1 := mkState (channel_ s) (<[p := d]> (routes_ s))
                     (filter (λ pm, ¬ for_route p pm) (pending_messages_ s))
                     (close_routes_ s)) in *.
  destruct (received_bound_errors p d frames s1) as (s' & t & Hrun & Hroutes & Herr).
  { apply lookup_insert_eq. }
  { intros q. cbn [s1 routes_]. destruct (decide (q = p)) as [->|Hq]; [done|].
    rewrite lookup_insert_ne by done. intros Hd. by destruct (Hunused q). }
  do 2 eexists. split.
  - eapply run_cons_step; [exact Hadd| |exact Hrun].
    eapply Forall_impl; [by apply (AddRoute_no_destruction p d s s1)|].
    intros e He ->. apply He. by right.
  - split; [rewrite Hroutes; apply lookup_insert_eq|].
    rewrite !errors_to_app, errors_to_deliver, Herr. cbn [s1 close_routes_ app].
    assert (Hnow : errors_to d (if decide (p ∈ close_routes_ s)
                                then [PipeOnError d ERROR_READ_SHUTDOWN] else [])
                   = if decide (p ∈ close_routes_ s) then [ERROR_READ_SHUTDOWN] else []).
    { destruct (decide (p ∈ close_routes_ s)); [|done].
      unfold errors_to. cbn [omap list_omap]. by rewrite decide_True. }
    rewrite Hnow. repeat case_decide; try done; tauto.
Qed.

(** A frame for pipe 7, then two ROUTE_CLOSED for pipe 7, arrive after
    pipe 7 has been bound. *)
Lemma X5_one_READ_SHUTDOWN_per_binding_witness :
  let F := (mkView MESSAGE 7 [x01], [] : list N) in
  let closed7 := (route_closed_message 7, [] : list N) in
  7 ≠ kInternalRoutingId
  ∧ routes_ initial !! 7 = None
  ∧ unused 70 initial
  ∧ ∃ s' t,
      run (CallAddRoute 7 70 :: received [F; closed7; closed7]) initial = Done (s', t)
      ∧ errors_to 70 t = [ERROR_READ_SHUTDOWN].
Proof.
  intros F closed7.
  assert (Hunused : unused 70 initial) by (by intros q).
  split; [done|]. split; [reflexivity|]. split; [exact Hunused|].
  destruct (X5_one_READ_SHUTDOWN_per_binding 7 70 initial [F; closed7; closed7]
              ltac:(done) eq_refl Hunused) as (s' & t & Hrun & _ & Herr).
  exists s', t. split; [exact Hrun|exact Herr].
Defined.

(** X6.  The message that RemoveRoute(p) hands to the raw channel, for a
    pipe id that fits in 64 bits, is taken by the OnReadMessage of any
    RoutedRawChannel that has not recorded [p] as closed: it is not
    refused as malformed, [p] is added to [close_routes_], the dispatcher
    bound to [p] there, if any, gets OnError(ERROR_READ_SHUTDOWN), and
    nothing else changes. *)
Theorem X6_ROUTE_CLOSED_crosses_the_wire
    (p d : N) (s s' : State) (t : list Event) (m : View)
    (peer : State) (h : list N) :
  p < 2 ^ 64 →
  RemoveRoute p d s = Done (s', t) →
  m ∈ written t →
  p ∉ close_routes_ peer →
  OnReadMessage m h peer =
    Done (mkState (channel_ peer) (routes_ peer) (pending_messages_ peer)
                  ({[p]} ∪ close_routes_ peer),
          match routes_ peer !! p with
          | Some d' => [PipeOnError d' ERROR_READ_SHUTDOWN]
          | None => []
          end).
Proof.
  intros Hp64 Hrm Hm Hnew.
  pose proof (RemoveRoute_inv _ _ _ _ _ Hrm) as Hp.
  rewrite RemoveRoute_Done in Hrm by done. injection Hrm as <- <-.
  rewrite written_app in Hm.
  rewrite (written_none (if negb _ && _ then _ else _)), app_nil_r in Hm
    by (destruct (negb _ && _); by repeat constructor).
  assert (Heq : m = route_closed_message p).
  { case_decide; [by apply elem_of_nil in Hm|].
    destruct (channel_ s); [|by apply elem_of_nil in Hm].
    by apply list_elem_of_singleton in Hm. }
  subst m. apply OnReadMessage_route_closed; [|done].
  by apply route_closed_message_wf.
Qed.

Lemma X6_ROUTE_CLOSED_crosses_the_wire_witness :
  let s := mkState true {[258 := 100]} [] ∅ in
  let peer := mkState true {[258 := 200]} [] ∅ in
  258 < 2 ^ 64
  ∧ RemoveRoute 258 100 s
    = Done (mkState true ∅ [] ∅, [ChannelWriteMessage (route_closed_message 258)])
  ∧ OnReadMessage (route_closed_message 258) [] peer
    = Done (mkState true {[258 := 200]} [] {[258]},
            [PipeOnError 200 ERROR_READ_SHUTDOWN]).
Proof.
  intros s peer.
  assert (Hrm : RemoveRoute 258 100 s
                = Done (mkState true ∅ [] ∅,
                        [ChannelWriteMessage (route_closed_message 258)]))
    by reflexivity.
  split; [reflexivity|]. split; [exact Hrm|].
  exact (X6_ROUTE_CLOSED_crosses_the_wire 258 100 s _ _ (route_closed_message 258)
           peer [] eq_refl Hrm ltac:(by left) ltac:(apply not_elem_of_empty)).
Defined.

(** X7.  Binding an unbound user route and then removing it again leaves
    the raw channel and the route table as they were; the messages that
    were buffered for the route are gone from the buffer (they were
    delivered); the route is no longer recorded as closed; and a
    ROUTE_CLOSED for it, and nothing else, was written to the raw channel
    unless the route had been recorded as closed or the raw channel is
    gone, in which cases nothing was written. *)
Theorem X7_AddRoute_then_RemoveRoute
    (p d : N) (s : State) :
  p ≠ kInternalRoutingId →
  routes_ s !! p = None →
  ∃ s1 t1 s2 t2,
    AddRoute p d s = Done (s1, t1)
    ∧ RemoveRoute p d s1 = Done (s2, t2)
    ∧ channel_ s2 = channel_ s
    ∧ routes_ s2 = routes_ s
    ∧ pending_messages_ s2 = filter (λ pm, ¬ for_route p pm) (pending_messages_ s)
    ∧ close_routes_ s2 = close_routes_ s ∖ {[p]}
    ∧ written (t1 ++ t2) =
        (if decide (p ∈ close_routes_ s) then []
         else if channel_ s then [route_closed_message p] else []).
Proof.
  intros Hp Hfree.
  pose proof (AddRoute_Done p d s Hp Hfree) as Hadd.
  pose proof (RemoveRoute_Done p d
                (mkState (channel_ s) (<[p := d]> (routes_ s))
                         (filter (λ pm, ¬ for_route p pm) (pending_messages_ s))
                         (close_routes_ s))
                (lookup_insert_eq _ _ _)) as Hrm.
  do 4 eexists. split; [exact Hadd|]. split; [exact Hrm|].
  cbn [channel_ routes_ pending_messages_ close_routes_].
  split; [done|]. split; [apply delete_insert_id; exact Hfree|].
  split; [done|]. split.
  - destruct (decide (p ∈ close_routes_ s)) as [Hin|Hin]; [done|].
    apply set_eq. intros x.
    rewrite elem_of_difference, elem_of_singleton. split; [|tauto].
    intros Hx. split; [done|]. by intros ->.
  - rewrite !written_app.
    rewrite (written_none (deliver d <$> _))
      by (apply Forall_fmap, Forall_true; by intros pm).
    rewrite (written_none (if negb _ && _ then _ else _))
      by (destruct (negb _ && _); by repeat constructor).
    rewrite app_nil_r.
    destruct (decide (p ∈ close_routes_ s)); [done|].
    by destruct (channel_ s).
Qed.

Lemma X7_AddRoute_then_RemoveRoute_witness :
  let m := mkPending (mkView MESSAGE 7 [x01]) [] in
  let other := mkPending (mkView MESSAGE 9 [x02]) [] in
  let s := mkState true {[3 := 30]} [m; other] {[7]} in
  7 ≠ kInternalRoutingId
  ∧ routes_ s !! 7 = None
  ∧ ∃ s1 t1 s2 t2,
      AddRoute 7 70 s = Done (s1, t1)
      ∧ RemoveRoute 7 70 s1 = Done (s2, t2)
      ∧ s2 = mkState true {[3 := 30]} [other] ∅
      ∧ written (t1 ++ t2) = [].
Proof.
  intros m other s. split; [done|]. split; [reflexivity|].
  destruct (X7_AddRoute_then_RemoveRoute 7 70 s ltac:(done) eq_refl)
    as (s1 & t1 & s2 & t2 & Hadd & Hrm & _ & _ & _ & _ & Hw).
  exists s1, t1, s2, t2. split; [exact Hadd|]. split; [exact Hrm|].
  split; [|exact Hw].
  injection Hadd as <- <-. injection Hrm as <- <-. reflexivity.
Defined.

(** X8.  The CHECKs.  A second AddRoute for a pipe that AddRoute has just
    bound aborts, whatever dispatcher it names; so does a second
    RemoveRoute for a pipe that RemoveRoute has just removed, a
    RemoveRoute that names another dispatcher than the one bound, and an
    AddRoute for the internal route 0. *)
Theorem X8_CHECKs_abort
    (p d d' : N) (s s1 : State) (t : list Event) :
  (AddRoute p d s = Done (s1, t) → ∃ why, AddRoute p d' s1 = Crash why)
  ∧ (RemoveRoute p d s = Done (s1, t) → ∃ why, RemoveRoute p d' s1 = Crash why)
  ∧ (routes_ s !! p = Some d → d' ≠ d → ∃ why, RemoveRoute p d' s = Crash why)
  ∧ (∃ why, AddRoute kInternalRoutingId d s = Crash why).
Proof.
  repeat apply conj.
  - intros Hadd. destruct (AddRoute_inv _ _ _ _ _ Hadd) as [Hp Hfree].
    rewrite AddRoute_Done in Hadd by done. injection Hadd as <- _.
    unfold AddRoute. destruct (N.eqb_spec p kInternalRoutingId); [done|].
    cbn [routes_]. rewrite lookup_insert_eq. eauto.
  - intros Hrm. pose proof (RemoveRoute_inv _ _ _ _ _ Hrm) as Hp.
    rewrite RemoveRoute_Done in Hrm by done. injection Hrm as <- _.
    unfold RemoveRoute. cbn [routes_]. rewrite lookup_delete_eq. eauto.
  - intros Hp Hne. unfold RemoveRoute. rewrite Hp.
    destruct (N.eqb_spec d d'); [congruence|]. cbn [negb]. eauto.
  - unfold AddRoute. rewrite N.eqb_refl. eauto.
Qed.

Lemma X8_CHECKs_abort_witness :
  let s := mkState true {[3 := 30]} [] ∅ in
  (∃ why, AddRoute 7 71 (mkState true {[3 := 30; 7 := 70]} [] ∅) = Crash why)
  ∧ (∃ why, RemoveRoute 3 31 s = Crash why)
  ∧ (∃ why, AddRoute kInternalRoutingId 70 s = Crash why).
Proof.
  intros s.
  destruct (X8_CHECKs_abort 7 70 71 s (mkState true {[3 := 30; 7 := 70]} [] ∅) [])
    as (Hagain & _ & _ & _).
  destruct (X8_CHECKs_abort 3 30 31 s s []) as (_ & _ & Hother & Hzero).
  split; [exact (Hagain eq_refl)|]. split; [|exact Hzero].
  apply Hother; [reflexivity|done].
Defined.

(** X9.  Once the raw channel is gone ([channel_] is null), every sequence
    of calls that returns leaves it gone, hands nothing to the raw
    channel, neither shuts it down again nor deletes the object inline,
    and contains no OnError: a second OnError would call through the null
    pointer. *)
Theorem X9_nothing_is_sent_once_the_channel_is_gone
    (cs : list Call) (s s' : State) (t : list Event) :
  channel_ s = false →
  run cs s = Done (s', t) →
  channel_ s' = false
  ∧ Forall (λ c, ¬ is_error_call c) cs
  ∧ written t = []
  ∧ Forall (λ e, e ≠ DeleteThis ∧ e ≠ ChannelShutdown) t.
Proof.
  revert s t. induction cs as [|c cs IH]; intros s t Hgone Hrun.
  - injection Hrun as <- <-. by repeat split.
  - apply run_cons_Done in Hrun as (s1 & t1 & t2 & Hcall & Hrest & ->).
    destruct (call_channel_gone c s s1 t1 Hgone Hcall) as (Hgone1 & Hc & Hquiet).
    destruct (IH s1 t2 Hgone1 Hrest) as (Hgone' & Hcs & Hw & Hq).
    split; [done|]. split; [by constructor|]. split.
    + rewrite written_app, Hw, app_nil_r. apply written_none.
      eapply Forall_impl; [exact Hquiet|]. by intros e (_ & _ & ?).
    + apply Forall_app. split; [|done].
      eapply Forall_impl; [exact Hquiet|]. by intros e (? & ? & _).
Qed.

(** Pipe 3 is still bound after the raw channel has failed; a frame
    arrives late, pipe 5 is bound and both pipes are removed. *)
Lemma X9_nothing_is_sent_once_the_channel_is_gone_witness :
  let s := mkState false {[3 := 30]} [] ∅ in
  let cs := [CallOnReadMessage (mkView MESSAGE 3 [x01]) []; CallAddRoute 5 50;
             CallRemoveRoute 3 30; CallRemoveRoute 5 50] in
  channel_ s = false
  ∧ ∃ s' t, run cs s = Done (s', t)
            ∧ written t = []
            ∧ last t = Some DeleteSoon.
Proof.
  intros s cs. split; [reflexivity|].
  assert (Hrun : run cs s
                 = Done (mkState false ∅ [] ∅,
                         [PipeOnReadMessage 30 (mkView MESSAGE 3 [x01]) []; DeleteSoon]))
    by (vm_compute; reflexivity).
  eexists _, _. split; [exact Hrun|].
  destruct (X9_nothing_is_sent_once_the_channel_is_gone cs s _ _ eq_refl Hrun)
    as (_ & _ & Hw & _).
  split; [exact Hw|reflexivity].
Defined.

(** X11.  DeleteSoon can be posted twice for one object.  With the raw
    channel gone, removing the last route posts DeleteSoon; the object
    still accepts an AddRoute for any user route, which calls only the
    new dispatcher; and removing that route posts DeleteSoon again. *)
Theorem X11_DeleteSoon_can_be_posted_twice
    (p0 d0 p d : N) (s : State) :
  channel_ s = false →
  routes_ s = {[p0 := d0]} →
  p ≠ kInternalRoutingId →
  ∃ s' t2,
    run [CallRemoveRoute p0 d0; CallAddRoute p d; CallRemoveRoute p d] s
      = Done (s', DeleteSoon :: t2 ++ [DeleteSoon])
    ∧ Forall is_pipe_call t2
    ∧ channel_ s' = false ∧ routes_ s' = ∅.
Proof.
  intros Hgone Hroutes Hp.
  assert (Hp0 : routes_ s !! p0 = Some d0) by (rewrite Hroutes; apply lookup_singleton_eq).
  pose proof (RemoveRoute_Done p0 d0 s Hp0) as H1.
  rewrite Hgone, Hroutes, delete_singleton_eq in H1.
  rewrite bool_decide_eq_true_2 in H1 by done. cbn [negb andb] in H1.
  assert (Hnone : (if decide (p0 ∈ close_routes_ s) then []
                   else if false then [ChannelWriteMessage (route_closed_message p0)]
                        else []) = @nil Event) by (by case_decide).
  rewrite Hnone in H1. cbn [app] in H1. clear Hnone.
  set (s1 := mkState false ∅ (pending_messages_ s)
                     (if decide (p0 ∈ close_routes_ s)
                      then close_routes_ s ∖ {[p0]} else close_routes_ s)) in *.
  pose proof (AddRoute_Done p d s1 Hp (lookup_empty _)) as H2.
  cbn [s1 channel_ routes_ pending_messages_ close_routes_] in H2.
  set (t2 := (deliver d <$> filter (for_route p) (pending_messages_ s)) ++ _) in H2.
  set (s2 := mkState false _ _ _) in H2.
  pose proof (RemoveRoute_Done p d s2 (lookup_insert_eq _ _ _)) as H3.
  cbn [s2 channel_ routes_ pending_messages_ close_routes_] in H3.
  rewrite insert_empty, delete_singleton_eq in H3.
  rewrite bool_decide_eq_true_2 in H3 by done. cbn [negb andb] in H3.
  assert (Hnone : ∀ X : gset N, (if decide (p ∈ X) then []
                   else if false then [ChannelWriteMessage (route_closed_message p)]
                        else []) = @nil Event)
    by (intros X; by destruct (decide (p ∈ X))).
  rewrite Hnone in H3. cbn [app] in H3.
  assert (Hpipe : Forall is_pipe_call t2).
  { apply Forall_app. split.
    - apply Forall_fmap, Forall_true. by intros pm.
    - case_decide; by repeat constructor. }
  assert (Hquiet : Forall (λ e, e ≠ DeleteThis) t2).
  { eapply Forall_impl; [exact Hpipe|]. by intros e He ->. }
  match type of H3 with _ = Done (?s3, _) => exists s3, t2 end.
  split; [|split; [exact Hpipe|done]].
  change (DeleteSoon :: t2 ++ [DeleteSoon])
    with ([DeleteSoon] ++ t2 ++ [DeleteSoon] ++ []).
  eapply (run_cons_step (CallRemoveRoute p0 d0)); [exact H1|by repeat constructor|].
  eapply (run_cons_step (CallAddRoute p d)); [exact H2|exact Hquiet|].
  eapply (run_cons_step (CallRemoveRoute p d)); [exact H3|by repeat constructor|].
  done.
Qed.

Lemma X11_DeleteSoon_can_be_posted_twice_witness :
  let s := mkState false {[3 := 30]} [] ∅ in
  channel_ s = false
  ∧ routes_ s = {[3 := 30]}
  ∧ 5 ≠ kInternalRoutingId
  ∧ ∃ s', run [CallRemoveRoute 3 30; CallAddRoute 5 50; CallRemoveRoute 5 50] s
          = Done (s', [DeleteSoon; DeleteSoon]).
Proof.
  intros s. split; [reflexivity|]. split; [reflexivity|]. split; [done|].
  destruct (X11_DeleteSoon_can_be_posted_twice 3 30 5 50 s eq_refl eq_refl ltac:(done))
    as (s' & t2 & Hrun & _).
  exists s'. rewrite Hrun.
  assert (Hsame : run [CallRemoveRoute 3 30; CallAddRoute 5 50; CallRemoveRoute 5 50] s
                  = Done (mkState false ∅ [] ∅, [DeleteSoon; DeleteSoon]))
    by (vm_compute; reflexivity).
  rewrite Hsame in Hrun. injection Hrun as <- Ht. by rewrite <- Ht.
Defined.

(** X13.  A dispatcher that is bound to no route, as it is from the
    RemoveRoute of its last route on, is never called: in every sequence
    of calls that returns and in which no AddRoute names it, no
    OnReadMessage and no OnError is made on it, not even by the OnError
    of the raw channel, and it is still bound to nothing at the end. *)
Theorem X13_unbound_dispatcher_is_never_called
    (d : N) (cs : list Call) (s s' : State) (t : list Event) :
  unused d s →
  Forall (λ c, ¬ names d c) cs →
  run cs s = Done (s', t) →
  Forall (λ e, ¬ calls d e) t ∧ unused d s'.
Proof.
  revert s t. induction cs as [|c cs IH]; intros s t Hunused Hcs Hrun.
  - injection Hrun as <- <-. by split.
  - apply run_cons_Done in Hrun as (s1 & t1 & t2 & Hcall & Hrest & ->).
    apply Forall_cons in Hcs as [Hc Hcs].
    pose proof (call_unused d c s s1 t1 Hunused Hc Hcall) as Hunused1.
    destruct (IH s1 t2 Hunused1 Hcs Hrest) as [Hquiet Hunused'].
    split; [|done]. apply Forall_app. split; [|done].
    eapply on_bound_unused; [exact Hunused1|]. by eapply call_on_bound.
Qed.

(** Dispatcher 70 has been removed from pipe 7; frames for pipe 7 and a
    ROUTE_CLOSED for it arrive, pipe 7 is bound to dispatcher 71, and the
    raw channel fails. *)
Lemma X13_unbound_dispatcher_is_never_called_witness :
  let F := mkView MESSAGE 7 [x01] in
  let s := mkState true {[3 := 30]} [] ∅ in
  let cs := [CallOnReadMessage F []; CallOnReadMessage (route_closed_message 7) [];
             CallAddRoute 7 71; CallOnError (ERROR_OTHER 1)] in
  unused 70 s
  ∧ ∃ s' t, run cs s = Done (s', t)
            ∧ Forall (λ e, ¬ calls 70 e) t
            ∧ errors_to 71 t = [ERROR_READ_SHUTDOWN; ERROR_OTHER 1].
Proof.
  intros F s cs.
  assert (Hunused : unused 70 s).
  { intros q. cbn [s routes_]. intros [Hq Hd]%lookup_singleton_Some. done. }
  split; [exact Hunused|].
  destruct (run cs s) as [[s' t]| |] eqn:Hrun; [|by vm_compute in Hrun..].
  exists s', t. split; [reflexivity|].
  destruct (X13_unbound_dispatcher_is_never_called 70 cs s s' t Hunused
              ltac:(repeat constructor; by intros H) Hrun) as [Hquiet _].
  split; [exact Hquiet|].
  vm_compute in Hrun. injection Hrun as <- <-. reflexivity.
Defined.

End RoutedRawChannelExtras.

(** * Closing a pipe from both ends *)

Section LinkExtras.
Import RoutedRawChannel.

(** X10.  Two RoutedRawChannels joined by the transport both have pipe [p]
    bound, neither has it recorded as closed, both raw channels exist and
    nothing is in flight.  Side A removes the route, its message arrives
    at side B, and then side B removes the route.  Exactly one message
    was written, the ROUTE_CLOSED of side A; side B's dispatcher got
    exactly one OnError(ERROR_READ_SHUTDOWN); side B wrote nothing; and
    afterwards nothing is in flight, [p] is bound on neither side and
    [close_routes_] is on both sides what it was. *)
Theorem X10_one_sided_close_handshake
    (p dA dB : N) (y : Link.System) :
  p < 2 ^ 64 →
  routes_ (Link.a y) !! p = Some dA →
  routes_ (Link.b y) !! p = Some dB →
  p ∉ close_routes_ (Link.a y) →
  p ∉ close_routes_ (Link.b y) →
  channel_ (Link.a y) = true →
  channel_ (Link.b y) = true →
  Link.to_a y = [] →
  Link.to_b y = [] →
  ∃ y',
    Link.steps [Link.DoRemoveRoute Link.SideA p dA; Link.Arrive Link.SideB;
                Link.DoRemoveRoute Link.SideB p dB] y = Done y'
    ∧ Link.trace_a y' = Link.trace_a y ++ [ChannelWriteMessage (route_closed_message p)]
    ∧ Link.trace_b y' = Link.trace_b y ++ [PipeOnError dB ERROR_READ_SHUTDOWN]
    ∧ Link.to_a y' = [] ∧ Link.to_b y' = []
    ∧ routes_ (Link.a y') = delete p (routes_ (Link.a y))
    ∧ routes_ (Link.b y') = delete p (routes_ (Link.b y))
    ∧ close_routes_ (Link.a y') = close_routes_ (Link.a y)
    ∧ close_routes_ (Link.b y') = close_routes_ (Link.b y).
Proof.
  intros Hp64 HA HB HcA HcB HupA HupB HtoA HtoB.
  destruct y as [sa sb toa tob ta tb]. cbn [Link.a Link.b Link.to_a Link.to_b] in *.
  subst toa tob.
  pose proof (RemoveRoute_Done p dA sa HA) as H1.
  rewrite HupA in H1. destruct (decide (p ∈ close_routes_ sa)) as [|_]; [done|].
  cbn [negb andb app] in H1.
  pose proof (OnReadMessage_route_closed p (route_closed_message p) [] sb
                (route_closed_message_wf p Hp64) HcB) as H2.
  rewrite HB in H2.
  set (sb1 := mkState (channel_ sb) (routes_ sb) (pending_messages_ sb)
                      ({[p]} ∪ close_routes_ sb)) in *.
  assert (HB1 : routes_ sb1 !! p = Some dB) by done.
  pose proof (RemoveRoute_Done p dB sb1 HB1) as H3.
  cbn [sb1 channel_ routes_ pending_messages_ close_routes_] in H3.
  rewrite HupB in H3. cbn [negb andb] in H3.
  destruct (decide (p ∈ {[p]} ∪ close_routes_ sb)) as [_|Hno];
    [|destruct Hno; apply elem_of_union; left; by apply elem_of_singleton].
  eexists. split.
  - cbn [Link.steps Link.step Link.commit Link.side_state Link.a Link.b
         Link.to_a Link.to_b Link.trace_a Link.trace_b].
    rewrite H1.
    cbn [Link.steps Link.step Link.commit Link.side_state Link.a Link.b
         Link.to_a Link.to_b Link.trace_a Link.trace_b written omap list_omap app].
    rewrite H2.
    cbn [Link.steps Link.step Link.commit Link.side_state Link.a Link.b
         Link.to_a Link.to_b Link.trace_a Link.trace_b written omap list_omap app].
    fold sb1. rewrite H3. reflexivity.
  - cbn [Link.a Link.b Link.to_a Link.to_b Link.trace_a Link.trace_b
         routes_ close_routes_ written omap list_omap app].
    rewrite !app_nil_r. repeat split; try done.
    apply set_eq. intros x.
    rewrite elem_of_difference, elem_of_union, elem_of_singleton.
    split; [tauto|]. intros Hx. split; [by right|]. by intros ->.
Qed.

Lemma X10_one_sided_close_handshake_witness :
  let y := Link.mkSystem (mkState true {[7 := 1]} [] ∅)
                         (mkState true {[7 := 2]} [] ∅) [] [] [] [] in
  ∃ y',
    Link.steps [Link.DoRemoveRoute Link.SideA 7 1; Link.Arrive Link.SideB;
                Link.DoRemoveRoute Link.SideB 7 2] y = Done y'
    ∧ Link.trace_a y' = [ChannelWriteMessage (route_closed_message 7)]
    ∧ Link.trace_b y' = [PipeOnError 2 ERROR_READ_SHUTDOWN].
Proof.
  intros y.
  destruct (X10_one_sided_close_handshake 7 1 2 y eq_refl eq_refl eq_refl
              ltac:(apply not_elem_of_empty) ltac:(apply not_elem_of_empty)
              eq_refl eq_refl eq_refl eq_refl)
    as (y' & Hsteps & Ha & Hb & _).
  exists y'. split; [exact Hsteps|]. split; [exact Ha|exact Hb].
Defined.

(** X12.  In the same situation both sides remove the route before the
    other side's message has arrived, and then both messages arrive.
    Each side has written one ROUTE_CLOSED, no dispatcher was called, and
    [p] is now recorded in [close_routes_] on both sides, where no
    RemoveRoute is left to erase it: an AddRoute for [p] made later on
    side A ends by reporting OnError(ERROR_READ_SHUTDOWN) to the new
    dispatcher. *)
Theorem X12_crossed_ROUTE_CLOSED_stays_recorded
    (p dA dB d : N) (y : Link.System) :
  p ≠ kInternalRoutingId →
  p < 2 ^ 64 →
  routes_ (Link.a y) !! p = Some dA →
  routes_ (Link.b y) !! p = Some dB →
  p ∉ close_routes_ (Link.a y) →
  p ∉ close_routes_ (Link.b y) →
  channel_ (Link.a y) = true →
  channel_ (Link.b y) = true →
  Link.to_a y = [] →
  Link.to_b y = [] →
  ∃ y',
    Link.steps [Link.DoRemoveRoute Link.SideA p dA; Link.DoRemoveRoute Link.SideB p dB;
                Link.Arrive Link.SideA; Link.Arrive Link.SideB] y = Done y'
    ∧ Link.trace_a y' = Link.trace_a y ++ [ChannelWriteMessage (route_closed_message p)]
    ∧ Link.trace_b y' = Link.trace_b y ++ [ChannelWriteMessage (route_closed_message p)]
    ∧ Link.to_a y' = [] ∧ Link.to_b y' = []
    ∧ close_routes_ (Link.a y') = {[p]} ∪ close_routes_ (Link.a y)
    ∧ close_routes_ (Link.b y') = {[p]} ∪ close_routes_ (Link.b y)
    ∧ ∃ s' t, AddRoute p d (Link.a y') = Done (s', t)
              ∧ last t = Some (PipeOnError d ERROR_READ_SHUTDOWN).
Proof.
  intros Hp Hp64 HA HB HcA HcB HupA HupB HtoA HtoB.
  destruct y as [sa sb toa tob ta tb]. cbn [Link.a Link.b Link.to_a Link.to_b] in *.
  subst toa tob.
  pose proof (RemoveRoute_Done p dA sa HA) as H1.
  rewrite HupA in H1. destruct (decide (p ∈ close_routes_ sa)) as [|_]; [done|].
  cbn [negb andb app] in H1.
  pose proof (RemoveRoute_Done p dB sb HB) as H2.
  rewrite HupB in H2. destruct (decide (p ∈ close_routes_ sb)) as [|_]; [done|].
  cbn [negb andb app] in H2.
  set (sa1 := mkState true (delete p (routes_ sa)) (pending_messages_ sa)
                      (close_routes_ sa)) in *.
  set (sb1 := mkState true (delete p (routes_ sb)) (pending_messages_ sb)
                      (close_routes_ sb)) in *.
  pose proof (OnReadMessage_route_closed p (route_closed_message p) [] sa1
                (route_closed_message_wf p Hp64) HcA) as H3.
  pose proof (OnReadMessage_route_closed p (route_closed_message p) [] sb1
                (route_closed_message_wf p Hp64) HcB) as H4.
  cbn [sa1 sb1 channel_ routes_ pending_messages_ close_routes_] in H3, H4.
  rewrite lookup_delete_eq in H3, H4.
  eexists. split.
  - cbn [Link.steps Link.step Link.commit Link.side_state Link.a Link.b
         Link.to_a Link.to_b Link.trace_a Link.trace_b].
    rewrite H1.
    cbn [Link.steps Link.step Link.commit Link.side_state Link.a Link.b
         Link.to_a Link.to_b Link.trace_a Link.trace_b written omap list_omap app].
    rewrite H2.
    cbn [Link.steps Link.step Link.commit Link.side_state Link.a Link.b
         Link.to_a Link.to_b Link.trace_a Link.trace_b written omap list_omap app].
    fold sa1. rewrite H3.
    cbn [Link.steps Link.step Link.commit Link.side_state Link.a Link.b
         Link.to_a Link.to_b Link.trace_a Link.trace_b written omap list_omap app].
    fold sb1. rewrite H4. reflexivity.
  - cbn [Link.a Link.b Link.to_a Link.to_b Link.trace_a Link.trace_b
         routes_ close_routes_ written omap list_omap app].
    rewrite !app_nil_r. repeat split; try done.
    rewrite AddRoute_Done by (done || apply lookup_delete_eq).
    cbn [close_routes_]. do 2 eexists. split; [done|].
    rewrite decide_True by (apply elem_of_union; left; by apply elem_of_singleton).
    by rewrite last_snoc.
Qed.

Lemma X12_crossed_ROUTE_CLOSED_stays_recorded_witness :
  let y := Link.mkSystem (mkState true {[7 := 1]} [] ∅)
                         (mkState true {[7 := 2]} [] ∅) [] [] [] [] in
  ∃ y',
    Link.steps [Link.DoRemoveRoute Link.SideA 7 1; Link.DoRemoveRoute Link.SideB 7 2;
                Link.Arrive Link.SideA; Link.Arrive Link.SideB] y = Done y'
    ∧ close_routes_ (Link.a y') = {[7]} ∪ ∅
    ∧ ∃ s' t, AddRoute 7 3 (Link.a y') = Done (s', t)
              ∧ last t = Some (PipeOnError 3 ERROR_READ_SHUTDOWN).
Proof.
  intros y.
  destruct (X12_crossed_ROUTE_CLOSED_stays_recorded 7 1 2 3 y ltac:(done)
              eq_refl eq_refl eq_refl
              ltac:(apply not_elem_of_empty) ltac:(apply not_elem_of_empty)
              eq_refl eq_refl eq_refl eq_refl)
    as (y' & Hsteps & _ & _ & _ & _ & Hca & _ & Hadd).
  exists y'. split; [exact Hsteps|]. split; [exact Hca|exact Hadd].
Defined.

End LinkExtras.
